(** * go-sqlite-bench: the benchmark scenario engine of [app/app.go]

  A shallow embedding of the harness ([Run], the five [bench*] scenarios,
  their data generators and validators) together with the properties the
  specification states about it.

  Conventions.
  - Go's [int] and [int64] are [Z]; where the source multiplies 64-bit
    quantities the wrap-around is written out ([time.wrap64]).
  - [[]T] is [list T]; [append(s, x)] is [s ++ [x]]; [len] is [len].
  - Code that can call [log.Fatal] (or panic) lives in the monad [M]:
    a run either returns normally ([Ok]) or terminates the process
    ([Fatal]); nothing after a [Fatal] is executed, deferred calls
    included. *)

From Stdlib Require Import ZArith List String Ascii Bool Lia Arith.
Import ListNotations.
Open Scope string_scope.
Open Scope list_scope.
Open Scope Z_scope.

(** Concatenation of strings (Go's [+] on strings); [++] is kept for
    slices. *)
Infix "+++" := String.append (right associativity, at level 60).

Set Implicit Arguments.

(* ================================================================== *)
(** * Package [time] (standard library, by its documented behaviour)   *)
(* ================================================================== *)

Module time.

(** [time.Duration] is an [int64] count of nanoseconds. *)
Definition Duration := Z.

Definition wrap64 (z : Z) : Z := (z + 2 ^ 63) mod 2 ^ 64 - 2 ^ 63.

Definition Nanosecond : Duration := 1.
Definition Microsecond : Duration := 1000 * Nanosecond.
Definition Millisecond : Duration := 1000 * Microsecond.
Definition Second : Duration := 1000 * Millisecond.
Definition Minute : Duration := 60 * Second.

(** [time.Duration(i) * unit]: a product of two [int64]. *)
Definition scale (i : Z) (unit : Duration) : Duration := wrap64 (i * unit).

(** A [time.Time] is represented by its wall-clock reading in its own
    location, as nanoseconds since 1970-01-01T00:00:00 of that location.
    [time.Local] is taken to be a zone whose UTC offset does not change
    over the span of the generated timestamps, so that [Add] shifts the
    reading by exactly the duration. *)
Definition Time := Z.

Definition nsPerDay : Z := 86400 * Second.

(** Days from 1970-01-01 to the civil date [y]-[m]-[d] (proleptic
    Gregorian calendar). *)
Definition daysFromCivil (y m d : Z) : Z :=
  let y' := if m <=? 2 then y - 1 else y in
  let era := y' / 400 in
  let yoe := y' - era * 400 in
  let mp := (m + 9) mod 12 in
  let doy := (153 * mp + 2) / 5 + d - 1 in
  let doe := yoe * 365 + yoe / 4 - yoe / 100 + doy in
  era * 146097 + doe - 719468.

(** [time.Date(year, month, day, hour, min, sec, nsec, time.Local)]. *)
Definition Date (year month day hour min sec nsec : Z) : Time :=
  (((daysFromCivil year month day * 24 + hour) * 60 + min) * 60 + sec)
    * Second + nsec.

(** [t.Add(d)]. *)
Definition Add (t : Time) (d : Duration) : Time := t + d.

(** The civil year of a day number. *)
Definition yearOfDay (days : Z) : Z :=
  let z := days + 719468 in
  let era := z / 146097 in
  let doe := z mod 146097 in
  let yoe := (doe - doe / 1460 + doe / 36524 - doe / 146096) / 365 in
  let doy := doe - (365 * yoe + yoe / 4 - yoe / 100) in
  let mp := (5 * doy + 2) / 153 in
  let m := if mp <? 10 then mp + 3 else mp - 9 in
  yoe + era * 400 + (if m <=? 2 then 1 else 0).

(** [t.Year()]. *)
Definition Year (t : Time) : Z := yearOfDay (t / nsPerDay).

End time.

(* ================================================================== *)
(** * Packages [fmt] and [strings] (the verbs the harness uses)        *)
(* ================================================================== *)

Definition len {A} (s : list A) : Z := Z.of_nat (List.length s).

Module strings.

(** [strings.Repeat(s, count)] for [count >= 0]. *)
Fixpoint repeatN (s : string) (n : nat) : string :=
  match n with
  | O => ""
  | S n' => s +++ repeatN s n'
  end.

Definition Repeat (s : string) (count : Z) : string :=
  repeatN s (Z.to_nat count).

(** The slice expression [s[lo:hi]] on a string; out of range it
    panics, which is [None] here. *)
Definition slice (s : string) (lo hi : nat) : option string :=
  if (lo <=? hi)%nat && (hi <=? String.length s)%nat
  then Some (substring lo (hi - lo) s)
  else None.

End strings.

Module fmt.

Definition digit (d : Z) : ascii := ascii_of_nat (48 + Z.to_nat d).

(** Decimal digits of a non-negative number, most significant first. *)
Fixpoint digits (fuel : nat) (n : Z) (acc : string) : string :=
  match fuel with
  | O => acc
  | S fuel' =>
      let acc' := String (digit (n mod 10)) acc in
      if n <? 10 then acc' else digits fuel' (n / 10) acc'
  end.

Definition utoa (n : Z) : string :=
  digits (S (Z.to_nat (Z.log2 n))) n "".

Definition padding (c : string) (width : nat) (s : string) : string :=
  strings.repeatN c (width - String.length s).

(** [%d] *)
Definition d (n : Z) : string :=
  if n <? 0 then "-" +++ utoa (- n) else utoa n.

(** [%0<width>d]: zeros go between the sign and the digits. *)
Definition d0 (width : nat) (n : Z) : string :=
  if n <? 0
  then "-" +++ padding "0" (width - 1) (utoa (- n)) +++ utoa (- n)
  else padding "0" width (utoa n) +++ utoa n.

(** [%<width>s]: right-justified, padded with spaces on the left;
    never truncated. *)
Definition s (width : nat) (x : string) : string :=
  padding " " width x +++ x.


(** [%<width>d] *)
Definition dw (width : nat) (n : Z) : string := s width (d n).

End fmt.

(* ================================================================== *)
(** * Domain model                                                     *)
(* ================================================================== *)

(** Modelled from the spec: the three value types and their constructors
    ([User], [Article], [Comment], [NewUser], [NewArticle], [NewComment])
    are declared outside [app/app.go]; the fields are the ones of the
    spec's data-model table, under the names [app.go] reads them by. *)
Record User := NewUser {
  User_Id : Z;
  User_Created : time.Time;
  User_Email : string;
  User_Active : bool }.

Record Article := NewArticle {
  Article_Id : Z;
  Article_Created : time.Time;
  Article_UserId : Z;
  Article_Text : string }.

Record Comment := NewComment {
  Comment_Id : Z;
  Comment_Created : time.Time;
  Comment_ArticleId : Z;
  Comment_Text : string }.

(* ================================================================== *)
(** * The storage contract                                             *)
(* ================================================================== *)

(** What a backend call yields: the call returns, or the backend ends the
    process with a message. *)
Inductive Res (A : Type) : Type :=
| Done (a : A)
| Failed (msg : string).

Arguments Done {A} a.
Arguments Failed {A} msg.

(** The [Db] interface as [app.go] uses it, over an abstract backend state
    [St] (files and open connections) and connection handles [conn];
    together with the factory [makeDb] that [Run] receives and the two
    file helpers [removeDbfiles] and [dbsize], all three declared outside
    [app/app.go] and therefore taken as parameters. *)
Class Db (conn St : Type) := {
  db_open : string -> St -> Res (conn * St);
  db_Exec : conn -> list string -> St -> Res St;
  db_InsertUsers : conn -> string -> list User -> St -> Res St;
  db_InsertArticles : conn -> string -> list Article -> St -> Res St;
  db_InsertComments : conn -> string -> list Comment -> St -> Res St;
  db_FindUsers : conn -> string -> St -> Res (list User * St);
  db_FindUsersArticlesComments :
    conn -> string -> St ->
    Res ((list User * list Article * list Comment) * St);
  db_Close : conn -> St -> Res St;
  fs_remove : string -> St -> St;
  fs_size : string -> St -> Z }.

(* ================================================================== *)
(** * Runs: the world, the trace and the monad                         *)
(* ================================================================== *)

(** The calls a run makes on the storage contract, and the accesses of the
    reader goroutines to the captured variable [users] of
    [benchConcurrent]: the assignment [users = ...] writes it, [len(users)]
    and the range expression [range users] read it. Each access carries
    the value written or read. *)
Inductive Event : Type :=
| EvRemove (dbfile : string)
| EvOpen (dbfile : string)
| EvExec (stmts : list string)
| EvInsertUsers (sql : string) (rows : list User)
| EvInsertArticles (sql : string) (rows : list Article)
| EvInsertComments (sql : string) (rows : list Comment)
| EvFindUsers (sql : string) (res : list User)
| EvFindUsersArticlesComments (sql : string)
    (us : list User) (ars : list Article) (cs : list Comment)
| EvClose
| EvWriteUsers (v : list User)
| EvLenUsers (v : list User)
| EvRangeUsers (v : list User).

(** [w_cur] is the goroutine that is running (0 is the main goroutine),
    [w_clock] counts the readings of the wall clock taken so far,
    [w_prefix] is the prefix of the process-wide logger and [w_out] the
    lines it wrote to standard output. Every event of [w_trace] is tagged
    with the goroutine that caused it. *)
Record World (St : Type) := mkWorld {
  w_store : St;
  w_cur : nat;
  w_clock : nat;
  w_prefix : string;
  w_out : list string;
  w_trace : list (nat * Event) }.

Inductive Outcome (St A : Type) : Type :=
| Ok (a : A) (w : World St)
| Fatal (msg : string) (w : World St).

Arguments Ok {St A} a w.
Arguments Fatal {St A} msg w.

Definition M (St A : Type) : Type := World St -> Outcome St A.

Definition ret {St A} (a : A) : M St A := fun w => Ok a w.

Definition bind {St A B} (m : M St A) (k : A -> M St B) : M St B :=
  fun w =>
    match m w with
    | Ok a w' => k a w'
    | Fatal msg w' => Fatal msg w'
    end.

Declare Scope go_scope.
Delimit Scope go_scope with go.
Notation "x <- m ;; k" := (bind m (fun x => k))
  (at level 61, m at next level, right associativity) : go_scope.
Notation "m ;; k" := (bind m (fun _ => k))
  (at level 61, right associativity) : go_scope.
Open Scope go_scope.

Definition set_store {St} (s : St) (w : World St) : World St :=
  mkWorld s (w_cur w) (w_clock w) (w_prefix w) (w_out w) (w_trace w).

Definition set_cur {St} (g : nat) (w : World St) : World St :=
  mkWorld (w_store w) g (w_clock w) (w_prefix w) (w_out w) (w_trace w).

Definition set_prefix {St} (p : string) (w : World St) : World St :=
  mkWorld (w_store w) (w_cur w) (w_clock w) p (w_out w) (w_trace w).

Definition add_line {St} (l : string) (w : World St) : World St :=
  mkWorld (w_store w) (w_cur w) (w_clock w) (w_prefix w)
          (w_out w ++ [w_prefix w +++ l]) (w_trace w).

Definition add_event {St} (e : Event) (w : World St) : World St :=
  mkWorld (w_store w) (w_cur w) (w_clock w) (w_prefix w) (w_out w)
          (w_trace w ++ [(w_cur w, e)]).

Definition tick_clock {St} (w : World St) : World St :=
  mkWorld (w_store w) (w_cur w) (S (w_clock w)) (w_prefix w) (w_out w)
          (w_trace w).

(** [log.Printf] and [log.Print] with the message already formatted. *)
Definition logPrint {St} (msg : string) : M St unit :=
  fun w => Ok tt (add_line msg w).

(** [log.Fatal]: the message is logged and the process exits. *)
Definition logFatal {St A} (msg : string) : M St A :=
  fun w => Fatal msg (add_line msg w).

(** A run-time panic: the process dies, nothing is logged by the logger. *)
Definition panic {St A} (msg : string) : M St A :=
  fun w => Fatal msg w.

Definition emit {St} (e : Event) : M St unit :=
  fun w => Ok tt (add_event e w).

Definition when {St} (b : bool) (m : M St unit) : M St unit :=
  if b then m else ret tt.

(** [for i := 0; i < hi; i++ { s = body(i, s) }] *)
Fixpoint forFrom {S : Type} (n : nat) (i : Z) (body : Z -> S -> S) (s : S)
  : S :=
  match n with
  | O => s
  | Datatypes.S n' => forFrom n' (i + 1) body (body i s)
  end.

Definition forUpTo {S : Type} (hi : Z) (body : Z -> S -> S) (s : S) : S :=
  forFrom (Z.to_nat hi) 0 body s.

(** The same loop when the body can end the process. *)
Fixpoint forFromM {St S : Type} (n : nat) (i : Z) (body : Z -> S -> M St S)
  (s : S) : M St S :=
  match n with
  | O => ret s
  | Datatypes.S n' => s' <- body i s ;; forFromM n' (i + 1) body s'
  end.

Definition forUpToM {St S : Type} (hi : Z) (body : Z -> S -> M St S) (s : S)
  : M St S :=
  forFromM (Z.to_nat hi) 0 body s.

(** [for i, x := range xs { body(i, x) }] *)
Fixpoint forRangeFrom {St A : Type} (i : Z) (xs : list A)
  (body : Z -> A -> M St unit) : M St unit :=
  match xs with
  | [] => ret tt
  | x :: rest => body i x ;; forRangeFrom (i + 1) rest body
  end.

Definition forRange {St A : Type} (xs : list A) (body : Z -> A -> M St unit)
  : M St unit :=
  forRangeFrom 0 xs body.

(** Decidable equality of the values the validators compare. *)
Class Eqb (A : Type) := eqb : A -> A -> bool.
#[global] Instance Eqb_Z : Eqb Z := Z.eqb.
#[global] Instance Eqb_bool : Eqb bool := Bool.eqb.
#[global] Instance Eqb_string : Eqb string := String.eqb.

(** Modelled from the spec: the validation helpers [MustBeEqual], [MustBe]
    and [Must] are declared outside [app/app.go]; by the spec a violation
    is a fatal, immediately reported assertion failure that aborts the
    run, and a satisfied check has no effect. *)
Definition MustBeEqual {St A} `{Eqb A} (expected actual : A) : M St unit :=
  if eqb expected actual then ret tt else logFatal "MustBeEqual".

Definition MustBe {St} (cond : bool) : M St unit :=
  if cond then ret tt else logFatal "MustBe".

Definition Must {St} (cond : bool) (msg : string) : M St unit :=
  if cond then ret tt else logFatal msg.

(** [s[lo:hi]] inside a run. *)
Definition sliceM {St} (s : string) (lo hi : nat) : M St string :=
  match strings.slice s lo hi with
  | Some r => ret r
  | None => panic "slice bounds out of range"
  end.

(** [xs[i]] inside a run. *)
Definition indexM {St A} (xs : list A) (i : Z) : M St A :=
  match (if i <? 0 then None else nth_error xs (Z.to_nat i)) with
  | Some x => ret x
  | None => panic "index out of range"
  end.

(* ================================================================== *)
(** * The data generators                                              *)
(* ================================================================== *)

(** [base := time.Date(2023, 10, 1, 10, 0, 0, 0, time.Local)], the same in
    every scenario. *)
Definition base : time.Time := time.Date 2023 10 1 10 0 0 0.

(** The generating loop of [benchSimple] and [benchMany]: timestamps one
    minute apart, e-mails [user%08d@example.com]. *)
Definition minuteUsers (nusers : Z) : list User :=
  forUpTo nusers
    (fun i users =>
       users ++ [NewUser
                   (i + 1)
                   (time.Add base (time.scale i time.Minute))
                   ("user" +++ fmt.d0 8 (i + 1) +++ "@example.com")
                   true])
    [].

(** The generating loop of [benchLarge]: one second apart, the e-mail is
    [nsize] filler characters. *)
Definition largeUsers (nusers nsize : Z) : list User :=
  forUpTo nusers
    (fun i users =>
       users ++ [NewUser
                   (i + 1)
                   (time.Add base (time.scale i time.Second))
                   (strings.Repeat "a" nsize)
                   true])
    [].

(** The generating loop of [benchConcurrent]: one second apart, e-mails
    [user%d@example.com]. *)
Definition secondUsers (nusers : Z) : list User :=
  forUpTo nusers
    (fun i users =>
       users ++ [NewUser
                   (i + 1)
                   (time.Add base (time.scale i time.Second))
                   ("user" +++ fmt.d (i + 1) +++ "@example.com")
                   true])
    [].

(** The variables of the nested generating loop of [benchComplex]. *)
Record Gen := mkGen {
  g_users : list User;
  g_articles : list Article;
  g_comments : list Comment;
  g_userId : Z;
  g_articleId : Z;
  g_commentId : Z }.

Definition gen0 : Gen := mkGen [] [] [] 0 0 0.

Definition genComments (u a ncommentsPerArticle : Z) (g : Gen) : Gen :=
  forUpTo ncommentsPerArticle
    (fun c g =>
       let commentId := g_commentId g + 1 in
       let comment :=
         NewComment
           commentId
           (time.Add
              (time.Add (time.Add base (time.scale u time.Minute))
                        (time.scale a time.Second))
              (time.scale c time.Millisecond))
           (g_articleId g)
           "comment text" in
       mkGen (g_users g) (g_articles g) (g_comments g ++ [comment])
             (g_userId g) (g_articleId g) commentId)
    g.

Definition genArticles (u narticlesPerUser ncommentsPerArticle : Z) (g : Gen)
  : Gen :=
  forUpTo narticlesPerUser
    (fun a g =>
       let articleId := g_articleId g + 1 in
       let article :=
         NewArticle
           articleId
           (time.Add (time.Add base (time.scale u time.Minute))
                     (time.scale a time.Second))
           (g_userId g)
           "article text" in
       genComments u a ncommentsPerArticle
         (mkGen (g_users g) (g_articles g ++ [article]) (g_comments g)
                (g_userId g) articleId (g_commentId g)))
    g.

(** The three-level loop of [benchComplex], its three constants being
    parameters here. *)
Definition genComplex (nusers narticlesPerUser ncommentsPerArticle : Z)
  : Gen :=
  forUpTo nusers
    (fun u g =>
       let userId := g_userId g + 1 in
       let user :=
         NewUser
           userId
           (time.Add base (time.scale u time.Minute))
           ("user" +++ fmt.d0 8 (u + 1) +++ "@example.com")
           (Z.rem u 2 =? 0) in
       genArticles u narticlesPerUser ncommentsPerArticle
         (mkGen (g_users g ++ [user]) (g_articles g) (g_comments g)
                userId (g_articleId g) (g_commentId g)))
    gen0.

(* ================================================================== *)
(** * The scenario engine                                              *)
(* ================================================================== *)

Definition insertUserSql : string :=
  "INSERT INTO users(id,created,email,active) VALUES(?,?,?,?)".
Definition insertArticleSql : string :=
  "INSERT INTO articles(id,created,userId,text) VALUES(?,?,?,?)".
Definition insertCommentSql : string :=
  "INSERT INTO comments(id,created,articleId,text) VALUES(?,?,?,?)".

Definition findUsersSql : string :=
  "SELECT id,created,email,active FROM users ORDER BY id".

Definition schemaSql : list string :=
  [ "PRAGMA journal_mode=DELETE";
    "PRAGMA synchronous=FULL";
    "PRAGMA foreign_keys=1";
    "PRAGMA busy_timeout=5000";
    "CREATE TABLE users (" +++
      "id INTEGER PRIMARY KEY NOT NULL," +++
      " created INTEGER NOT NULL," +++
      " email TEXT NOT NULL," +++
      " active INTEGER NOT NULL)";
    "CREATE INDEX users_created ON users(created)";
    "CREATE TABLE articles (" +++
      "id INTEGER PRIMARY KEY NOT NULL," +++
      " created INTEGER NOT NULL, " +++
      " userId INTEGER NOT NULL REFERENCES users(id)," +++
      " text TEXT NOT NULL)";
    "CREATE INDEX articles_created ON articles(created)";
    "CREATE INDEX articles_userId ON articles(userId)";
    "CREATE TABLE comments (" +++
      "id INTEGER PRIMARY KEY NOT NULL," +++
      " created INTEGER NOT NULL, " +++
      " articleId INTEGER NOT NULL REFERENCES articles(id)," +++
      " text TEXT NOT NULL)";
    "CREATE INDEX comments_created ON comments(created)";
    "CREATE INDEX comments_articleId ON comments(articleId)" ].

Definition complexQuerySql : string :=
  "SELECT" +++
  " users.id, users.created, users.email, users.active," +++
  " articles.id, articles.created, articles.userId, articles.text," +++
  " comments.id, comments.created, comments.articleId, comments.text" +++
  " FROM users" +++
  " LEFT JOIN articles ON articles.userId = users.id" +++
  " LEFT JOIN comments ON comments.articleId = articles.id" +++
  " ORDER BY users.created,  articles.created, comments.created".

Definition pragmaSql : list string :=
  [ "PRAGMA foreign_keys=1"; "PRAGMA busy_timeout=5000" ].

(** The header and data lines: [%20s %12s %12s %12s] and
    [%20s %12d %12d %12d], and their three-column variants. *)
Definition header4 (label c1 c2 c3 : string) : string :=
  fmt.s 20 label +++ " " +++ fmt.s 12 c1 +++ " " +++ fmt.s 12 c2 +++ " " +++
  fmt.s 12 c3.

Definition data4 (label : string) (v1 v2 v3 : Z) : string :=
  fmt.s 20 label +++ " " +++ fmt.dw 12 v1 +++ " " +++ fmt.dw 12 v2 +++ " " +++
  fmt.dw 12 v3.

Definition header3 (label c1 c2 : string) : string :=
  fmt.s 20 label +++ " " +++ fmt.s 12 c1 +++ " " +++ fmt.s 12 c2.

Definition data3 (label : string) (v1 v2 : Z) : string :=
  fmt.s 20 label +++ " " +++ fmt.dw 12 v1 +++ " " +++ fmt.dw 12 v2.

Section Harness.

Context {conn St : Type} {DB : Db conn St}.

(** The wall clock: [tick k] is the [k]-th reading, in nanoseconds. *)
Variable tick : nat -> Z.

Definition timeNow : M St Z :=
  fun w => Ok (tick (w_clock w)) (tick_clock w).

(** Modelled from the spec: [millisSince] is declared outside
    [app/app.go]; it is the wall-clock duration since [t0] in whole
    milliseconds. *)
Definition millisSince (t0 : Z) : M St Z :=
  now <- timeNow ;; ret (Z.quot (now - t0) time.Millisecond).

(** A call on the backend: on failure the backend ends the process. *)
Definition call {A} (op : St -> Res (A * St)) (ev : A -> Event) : M St A :=
  fun w =>
    match op (w_store w) with
    | Done (a, s) => Ok a (add_event (ev a) (set_store s w))
    | Failed msg => Fatal msg (add_line msg w)
    end.

Definition only (op : St -> Res St) : St -> Res (unit * St) :=
  fun s => match op s with
           | Done s' => Done (tt, s')
           | Failed msg => Failed msg
           end.

Definition removeDbfiles (dbfile : string) : M St unit :=
  fun w =>
    Ok tt (add_event (EvRemove dbfile)
             (set_store (fs_remove dbfile (w_store w)) w)).

Definition dbsize (dbfile : string) : M St Z :=
  fun w => Ok (fs_size dbfile (w_store w)) w.

Definition makeDb (dbfile : string) : M St conn :=
  call (db_open dbfile) (fun _ => EvOpen dbfile).

Definition Exec (db : conn) (stmts : list string) : M St unit :=
  call (only (db_Exec db stmts)) (fun _ => EvExec stmts).

Definition InsertUsers (db : conn) (sql : string) (users : list User)
  : M St unit :=
  call (only (db_InsertUsers db sql users)) (fun _ => EvInsertUsers sql users).

Definition InsertArticles (db : conn) (sql : string) (articles : list Article)
  : M St unit :=
  call (only (db_InsertArticles db sql articles))
       (fun _ => EvInsertArticles sql articles).

Definition InsertComments (db : conn) (sql : string) (comments : list Comment)
  : M St unit :=
  call (only (db_InsertComments db sql comments))
       (fun _ => EvInsertComments sql comments).

Definition FindUsers (db : conn) (sql : string) : M St (list User) :=
  call (db_FindUsers db sql) (fun users => EvFindUsers sql users).

Definition FindUsersArticlesComments (db : conn) (sql : string)
  : M St (list User * list Article * list Comment) :=
  call (db_FindUsersArticlesComments db sql)
       (fun r => EvFindUsersArticlesComments sql (fst (fst r)) (snd (fst r))
                                            (snd r)).

Definition Close (db : conn) : M St unit :=
  call (only (db_Close db)) (fun _ => EvClose).

Definition initSchema (db : conn) : M St unit := Exec db schemaSql.

(** ** [benchSimple] *)

Definition simple_nusers : Z := 1000000.

Definition validateSimple (users : list User) : M St unit :=
  forRange users
    (fun i u =>
       MustBeEqual (i + 1) (User_Id u) ;;
       Must ((2023 <=? time.Year (User_Created u))
             && (time.Year (User_Created u) <=? 2025))
            "wrong created year" ;;
       p <- sliceM (User_Email u) 0 5 ;;
       MustBeEqual "user0" p ;;
       MustBeEqual true (User_Active u)).

(** The body of [benchSimple], its constant [nusers] being a parameter. *)
Definition benchSimpleWith (nusers : Z) (dbfile : string) (verbose : bool)
  : M St unit :=
  removeDbfiles dbfile ;;
  db <- makeDb dbfile ;;
  initSchema db ;;
  (* insert users *)
  let users := minuteUsers nusers in
  t0 <- timeNow ;;
  InsertUsers db insertUserSql users ;;
  insertMillis <- millisSince t0 ;;
  when verbose (logPrint ("  insert took " +++ fmt.d insertMillis +++ " ms")) ;;
  (* query users *)
  t0 <- timeNow ;;
  users <- FindUsers db findUsersSql ;;
  MustBeEqual (len users) nusers ;;
  queryMillis <- millisSince t0 ;;
  when verbose (logPrint ("  query took " +++ fmt.d queryMillis +++ " ms")) ;;
  (* validate query result *)
  validateSimple users ;;
  (* print results *)
  let label := "simple" in
  logPrint (header4 label "insert" "query" "dbsize") ;;
  size <- dbsize dbfile ;;
  logPrint (data4 label insertMillis queryMillis size) ;;
  (* deferred *)
  Close db.

Definition benchSimple : string -> bool -> M St unit :=
  benchSimpleWith simple_nusers.

(** ** [benchComplex] *)

Definition complex_nusers : Z := 200.
Definition complex_narticlesPerUser : Z := 100.
Definition complex_ncommentsPerArticle : Z := 20.

Definition validateComplexUsers (users : list User) : M St unit :=
  forRange users
    (fun i user =>
       MustBeEqual (i + 1) (User_Id user) ;;
       MustBeEqual 2023 (time.Year (User_Created user)) ;;
       p <- sliceM (User_Email user) 0 5 ;;
       MustBeEqual "user0" p ;;
       MustBeEqual (Z.rem i 2 =? 0) (User_Active user)).

Definition validateComplexArticles (nusers : Z) (articles : list Article)
  : M St unit :=
  forRange articles
    (fun i article =>
       MustBeEqual (i + 1) (Article_Id article) ;;
       MustBeEqual 2023 (time.Year (Article_Created article)) ;;
       MustBe (Article_UserId article >=? 1) ;;
       MustBe (Article_UserId article <=? 1 + nusers) ;;
       MustBeEqual "article text" (Article_Text article) ;;
       if i >? 0 then
         last <- indexM articles (i - 1) ;;
         MustBe (Article_UserId article >=? Article_UserId last)
       else ret tt).

Definition validateComplexComments (nusers narticlesPerUser : Z)
  (comments : list Comment) : M St unit :=
  forRange comments
    (fun i comment =>
       MustBeEqual (i + 1) (Comment_Id comment) ;;
       MustBeEqual 2023 (time.Year (Comment_Created comment)) ;;
       MustBe (Comment_ArticleId comment >=? 1) ;;
       MustBe (Comment_ArticleId comment <=? 1 + nusers * narticlesPerUser) ;;
       MustBeEqual "comment text" (Comment_Text comment) ;;
       if i >? 0 then
         last <- indexM comments (i - 1) ;;
         MustBe (Comment_ArticleId comment >=? Comment_ArticleId last)
       else ret tt).

(** The body of [benchComplex], its three constants being parameters. *)
Definition benchComplexWith (nusers narticlesPerUser ncommentsPerArticle : Z)
  (dbfile : string) (verbose : bool) : M St unit :=
  removeDbfiles dbfile ;;
  db <- makeDb dbfile ;;
  initSchema db ;;
  when verbose (logPrint ("nusers = " +++ fmt.d nusers) ;;
                logPrint ("narticlesPerUser = " +++ fmt.d narticlesPerUser) ;;
                logPrint ("ncommentsPerArticle = "
                          +++ fmt.d ncommentsPerArticle)) ;;
  (* make users, articles, comments *)
  let g := genComplex nusers narticlesPerUser ncommentsPerArticle in
  (* insert users, articles, comments *)
  t0 <- timeNow ;;
  InsertUsers db insertUserSql (g_users g) ;;
  InsertArticles db insertArticleSql (g_articles g) ;;
  InsertComments db insertCommentSql (g_comments g) ;;
  insertMillis <- millisSince t0 ;;
  when verbose (logPrint ("  insert took " +++ fmt.d insertMillis +++ " ms")) ;;
  (* query users, articles, comments in one big join *)
  t0 <- timeNow ;;
  r <- FindUsersArticlesComments db complexQuerySql ;;
  let users := fst (fst r) in
  let articles := snd (fst r) in
  let comments := snd r in
  queryMillis <- millisSince t0 ;;
  when verbose (logPrint ("  query took " +++ fmt.d queryMillis +++ " ms")) ;;
  (* validate query result *)
  MustBeEqual nusers (len users) ;;
  MustBeEqual (nusers * narticlesPerUser) (len articles) ;;
  MustBeEqual (nusers * narticlesPerUser * ncommentsPerArticle)
              (len comments) ;;
  validateComplexUsers users ;;
  validateComplexArticles nusers articles ;;
  validateComplexComments nusers narticlesPerUser comments ;;
  (* print results *)
  let label := "complex/" +++ fmt.d nusers +++ "/" +++ fmt.d narticlesPerUser
               +++ "/" +++ fmt.d ncommentsPerArticle in
  logPrint (header4 label "insert" "query" "dbsize") ;;
  size <- dbsize dbfile ;;
  logPrint (data4 label insertMillis queryMillis size) ;;
  (* deferred *)
  Close db.

Definition benchComplex : string -> bool -> M St unit :=
  benchComplexWith complex_nusers complex_narticlesPerUser
                   complex_ncommentsPerArticle.

(** ** [benchMany] *)

Definition validateMany (users : list User) : M St unit :=
  forRange users
    (fun i u =>
       MustBeEqual (i + 1) (User_Id u) ;;
       MustBeEqual 2023 (time.Year (User_Created u)) ;;
       p <- sliceM (User_Email u) 0 5 ;;
       MustBeEqual "user0" p ;;
       MustBeEqual true (User_Active u)).

Definition benchMany (dbfile : string) (verbose : bool) (nusers : Z)
  : M St unit :=
  removeDbfiles dbfile ;;
  db <- makeDb dbfile ;;
  initSchema db ;;
  (* insert users *)
  let users := minuteUsers nusers in
  t0 <- timeNow ;;
  InsertUsers db insertUserSql users ;;
  insertMillis <- millisSince t0 ;;
  when verbose (logPrint ("  insert took " +++ fmt.d insertMillis +++ " ms")) ;;
  (* query users 1000 times *)
  t0 <- timeNow ;;
  users <- forUpToM 1000
             (fun i _ =>
                users <- FindUsers db findUsersSql ;;
                MustBeEqual (len users) nusers ;;
                ret users)
             users ;;
  queryMillis <- millisSince t0 ;;
  when verbose (logPrint ("  query took " +++ fmt.d queryMillis +++ " ms")) ;;
  (* validate query result *)
  validateMany users ;;
  (* print results *)
  let label := "many/N=" +++ fmt.d nusers in
  logPrint (header3 label "query" "dbsize") ;;
  size <- dbsize dbfile ;;
  logPrint (data3 label queryMillis size) ;;
  (* deferred *)
  Close db.

(** ** [benchLarge] *)

Definition large_nusers : Z := 10000.

Definition validateLarge (users : list User) : M St unit :=
  forRange users
    (fun i u =>
       MustBeEqual (i + 1) (User_Id u) ;;
       MustBeEqual 2023 (time.Year (User_Created u)) ;;
       p <- sliceM (User_Email u) 0 1 ;;
       MustBeEqual "a" p ;;
       MustBeEqual true (User_Active u)).

(** The body of [benchLarge], its constant [nusers] being a parameter. *)
Definition benchLargeWith (nusers : Z) (dbfile : string) (verbose : bool)
  (nsize : Z) : M St unit :=
  removeDbfiles dbfile ;;
  db <- makeDb dbfile ;;
  initSchema db ;;
  (* insert user with large emails *)
  let users := largeUsers nusers nsize in
  InsertUsers db insertUserSql users ;;
  (* query users *)
  t0 <- timeNow ;;
  users <- FindUsers db findUsersSql ;;
  MustBeEqual (len users) nusers ;;
  queryMillis <- millisSince t0 ;;
  when verbose (logPrint ("  query took " +++ fmt.d queryMillis +++ " ms")) ;;
  (* validate query result *)
  validateLarge users ;;
  (* print results *)
  let label := "large/N=" +++ fmt.d nsize in
  logPrint (header3 label "query" "dbsize") ;;
  size <- dbsize dbfile ;;
  logPrint (data3 label queryMillis size) ;;
  (* deferred *)
  Close db.

Definition benchLarge : string -> bool -> Z -> M St unit :=
  benchLargeWith large_nusers.

(** ** [benchConcurrent] *)

Definition concurrent_nusers : Z := 1000000.

Definition validateConcurrent (users : list User) : M St unit :=
  forRange users
    (fun i u =>
       MustBeEqual (i + 1) (User_Id u) ;;
       MustBeEqual 2023 (time.Year (User_Created u)) ;;
       p <- sliceM (User_Email u) 0 4 ;;
       MustBeEqual "user" p ;;
       MustBeEqual true (User_Active u)).

(** The seed phase: everything before [t0 := time.Now()]. It returns the
    value of the variable [users], which the closures capture. *)
Definition seedPhase (nusers : Z) (dbfile : string) : M St (list User) :=
  removeDbfiles dbfile ;;
  db1 <- makeDb dbfile ;;
  initSchema db1 ;;
  (* insert many users *)
  let users := secondUsers nusers in
  InsertUsers db1 insertUserSql users ;;
  Close db1 ;;
  ret users.

(** Where a reader goroutine stands in the body of the [go func]. *)
Inductive ReaderPc : Type :=
| R_open                  (* db := makeDb(dbfile) *)
| R_exec (db : conn)      (* db.Exec(pragmas) *)
| R_find (db : conn)      (* users = db.FindUsers(...) *)
| R_len (db : conn)       (* MustBeEqual(len(users), nusers) *)
| R_range (db : conn)     (* for i, u := range users { ... } *)
| R_close (db : conn)     (* deferred db.Close() *)
| R_wgdone                (* deferred wg.Done() *)
| R_finished.

(** One step of a reader. [users] is the variable of the enclosing
    function: the assignment in [R_find] writes it (the closure declares no
    variable of that name), [len(users)] and the range expression read it.
    The step yields the reader's next position and the new value of the
    variable. *)
Definition readerStep (nusers : Z) (dbfile : string) (pc : ReaderPc)
  (users : list User) : M St (ReaderPc * list User) :=
  match pc with
  | R_open => db <- makeDb dbfile ;; ret (R_exec db, users)
  | R_exec db => Exec db pragmaSql ;; ret (R_find db, users)
  | R_find db =>
      r <- FindUsers db findUsersSql ;;
      emit (EvWriteUsers r) ;;
      ret (R_len db, r)
  | R_len db =>
      emit (EvLenUsers users) ;;
      MustBeEqual (len users) nusers ;;
      ret (R_range db, users)
  | R_range db =>
      emit (EvRangeUsers users) ;;
      validateConcurrent users ;;
      ret (R_close db, users)
  | R_close db => Close db ;; ret (R_wgdone, users)
  | R_wgdone => ret (R_finished, users)
  | R_finished => ret (R_finished, users)
  end.

(** Where the main goroutine stands between [t0 := time.Now()] and the
    return of [wg.Wait()]. *)
Inductive MainPc : Type :=
| M_spawn (i : Z)         (* the loop [for i := 0; i < ngoroutines; i++] *)
| M_wait                  (* wg.Wait() *)
| M_finished.

(** The fan-out phase as a machine: the goroutines, the captured variable
    [users], the counter of the wait group, the world, and whether a
    goroutine has ended the process. *)
Record Conf := mkConf {
  c_main : MainPc;
  c_readers : list ReaderPc;
  c_users : list User;
  c_wg : Z;
  c_world : World St;
  c_fatal : option string }.

Fixpoint set_nth {A} (k : nat) (x : A) (l : list A) : list A :=
  match l, k with
  | [], _ => []
  | _ :: r, O => x :: r
  | y :: r, Datatypes.S k' => y :: set_nth k' x r
  end.

(** One step of the main goroutine: an iteration of the spawning loop
    ([wg.Add(1)] and the [go] statement), or [wg.Wait()], which returns
    only when the counter is zero. *)
Definition mainStep (ngoroutines : Z) (c : Conf) : Conf :=
  match c_main c with
  | M_spawn i =>
      if i <? ngoroutines
      then mkConf (M_spawn (i + 1)) (c_readers c ++ [R_open]) (c_users c)
                  (c_wg c + 1) (c_world c) (c_fatal c)
      else mkConf M_wait (c_readers c) (c_users c) (c_wg c) (c_world c)
                  (c_fatal c)
  | M_wait =>
      if c_wg c =? 0
      then mkConf M_finished (c_readers c) (c_users c) (c_wg c) (c_world c)
                  (c_fatal c)
      else c
  | M_finished => c
  end.

(** One step of the machine: [pick = 0] runs the main goroutine,
    [pick = k + 1] the [k]-th reader, tagged [g0 + k + 1] in the trace. A
    goroutine that cannot move (not started yet, finished, waiting) leaves
    the configuration as it is, and so does every step after the process
    has ended. *)
Definition step (nusers ngoroutines : Z) (dbfile : string) (g0 : nat)
  (pick : nat) (c : Conf) : Conf :=
  match c_fatal c with
  | Some _ => c
  | None =>
      match pick with
      | O => mainStep ngoroutines c
      | Datatypes.S k =>
          match nth_error (c_readers c) k with
          | None => c
          | Some pc =>
              match readerStep nusers dbfile pc (c_users c)
                               (set_cur (g0 + Datatypes.S k) (c_world c)) with
              | Ok (pc', users') w' =>
                  mkConf (c_main c) (set_nth k pc' (c_readers c)) users'
                         (match pc with R_wgdone => c_wg c - 1 | _ => c_wg c end)
                         w' None
              | Fatal msg w' =>
                  mkConf (c_main c) (c_readers c) (c_users c) (c_wg c) w'
                         (Some msg)
              end
          end
      end
  end.

Definition exec (nusers ngoroutines : Z) (dbfile : string) (g0 : nat)
  (sched : list nat) (c : Conf) : Conf :=
  fold_left (fun c pick => step nusers ngoroutines dbfile g0 pick c) sched c.

(** Every goroutine runs to its end: whatever the scheduler did first, the
    main goroutine gets the steps to start all readers, each reader the
    steps of its body, and the main goroutine the step that returns from
    [wg.Wait()]. *)
Definition completion (n : nat) : list nat :=
  repeat O (Datatypes.S n)
  ++ flat_map (fun k => repeat (Datatypes.S k) 7) (seq 0 n)
  ++ [O].

(** The fan-out phase under the scheduler's choices [sched]. It returns
    when [wg.Wait()] has returned; a main goroutine that still waits when
    no goroutine is left to run is the fatal error of the runtime. *)
Definition fanOut (nusers ngoroutines : Z) (dbfile : string)
  (sched : list nat) (users : list User) : M St unit :=
  fun w =>
    let c0 := mkConf (M_spawn 0) [] users 0 w None in
    let c := exec nusers ngoroutines dbfile (w_cur w)
                  (sched ++ completion (Z.to_nat ngoroutines)) c0 in
    match c_fatal c, c_main c with
    | Some msg, _ => Fatal msg (c_world c)
    | None, M_finished => Ok tt (set_cur (w_cur w) (c_world c))
    | None, _ =>
        Fatal "all goroutines are asleep - deadlock!" (c_world c)
    end.

(** The body of [benchConcurrent], its constant [nusers] being a
    parameter. *)
Definition benchConcurrentWith (nusers : Z) (dbfile : string)
  (verbose : bool) (ngoroutines : Z) (sched : list nat) : M St unit :=
  users <- seedPhase nusers dbfile ;;
  (* query users in N goroutines *)
  t0 <- timeNow ;;
  fanOut nusers ngoroutines dbfile sched users ;;
  queryMillis <- millisSince t0 ;;
  when verbose (logPrint ("  query took " +++ fmt.d queryMillis +++ " ms")) ;;
  (* print results *)
  let label := "concurrent/N=" +++ fmt.d ngoroutines in
  logPrint (header3 label "query" "dbsize") ;;
  size <- dbsize dbfile ;;
  logPrint (data3 label queryMillis size).

Definition benchConcurrent
  : string -> bool -> Z -> list nat -> M St unit :=
  benchConcurrentWith concurrent_nusers.

(** ** [Run] *)

(** The five scenarios as [Run] calls them. *)
Inductive Scenario : Type :=
| ScSimple
| ScComplex
| ScMany (nusers : Z)
| ScLarge (nsize : Z)
| ScConcurrent (ngoroutines : Z) (sched : list nat).

Definition bench (sc : Scenario) (dbfile : string) (verbose : bool)
  : M St unit :=
  match sc with
  | ScSimple => benchSimple dbfile verbose
  | ScComplex => benchComplex dbfile verbose
  | ScMany nusers => benchMany dbfile verbose nusers
  | ScLarge nsize => benchLarge dbfile verbose nsize
  | ScConcurrent ngoroutines sched =>
      benchConcurrent dbfile verbose ngoroutines sched
  end.





End Harness.

(* ================================================================== *)
(** * A reference backend                                              *)
(* ================================================================== *)

(** Modelled from the spec: the concrete backends are outside
    [app/app.go]. This one keeps the three tables in memory and follows
    the storage contract of the spec: a batch insert makes all its rows
    visible to later queries on any connection, [FindUsers] returns the
    rows in the order of the query's [ORDER BY id], and
    [FindUsersArticlesComments] reads the flattened join, ordered by the
    three [created] columns, with one row per comment, and collects users
    and articles whenever the parent id changes from the previous row.
    Removing the files empties the tables; the size is a page per row and
    one for the header. *)
Record MemStore := mkMem {
  m_users : list User;
  m_articles : list Article;
  m_comments : list Comment }.

Definition memEmpty : MemStore := mkMem [] [] [].

Fixpoint insertBy {A} (key : A -> Z) (x : A) (l : list A) : list A :=
  match l with
  | [] => [x]
  | y :: r => if key x <=? key y then x :: l else y :: insertBy key x r
  end.

Definition sortBy {A} (key : A -> Z) (l : list A) : list A :=
  fold_right (insertBy key) [] l.

Definition joinRows (s : MemStore)
  : list (User * option Article * option Comment) :=
  flat_map
    (fun u =>
       match filter (fun a => Article_UserId a =? User_Id u)
                    (sortBy Article_Created (m_articles s)) with
       | [] => [(u, None, None)]
       | ars =>
           flat_map
             (fun a =>
                match filter (fun c => Comment_ArticleId c =? Article_Id a)
                             (sortBy Comment_Created (m_comments s)) with
                | [] => [(u, Some a, None)]
                | cs => map (fun c => (u, Some a, Some c)) cs
                end)
             ars
       end)
    (sortBy User_Created (m_users s)).

Definition lastId {A} (id : A -> Z) (l : list A) : option Z :=
  match rev l with
  | [] => None
  | x :: _ => Some (id x)
  end.

Definition pushNew {A} (id : A -> Z) (l : list A) (x : A) : list A :=
  match lastId id l with
  | Some k => if k =? id x then l else l ++ [x]
  | None => l ++ [x]
  end.

Definition collect (rows : list (User * option Article * option Comment))
  : list User * list Article * list Comment :=
  fold_left
    (fun acc row =>
       match acc, row with
       | (us, ars, cs), (u, oa, oc) =>
           (pushNew User_Id us u,
            match oa with Some a => pushNew Article_Id ars a | None => ars end,
            match oc with Some c => cs ++ [c] | None => cs end)
       end)
    rows ([], [], []).

#[global] Instance memDb : Db unit MemStore := {
  db_open := fun _ s => Done (tt, s);
  db_Exec := fun _ _ s => Done s;
  db_InsertUsers := fun _ _ rows s =>
    Done (mkMem (m_users s ++ rows) (m_articles s) (m_comments s));
  db_InsertArticles := fun _ _ rows s =>
    Done (mkMem (m_users s) (m_articles s ++ rows) (m_comments s));
  db_InsertComments := fun _ _ rows s =>
    Done (mkMem (m_users s) (m_articles s) (m_comments s ++ rows));
  db_FindUsers := fun _ _ s => Done (sortBy User_Id (m_users s), s);
  db_FindUsersArticlesComments := fun _ _ s => Done (collect (joinRows s), s);
  db_Close := fun _ s => Done s;
  fs_remove := fun _ _ => memEmpty;
  fs_size := fun _ s =>
    4096 * (1 + len (m_users s) + len (m_articles s) + len (m_comments s)) }.

(** A world to start from: the main goroutine, nothing logged yet. *)
Definition world0 : World MemStore := mkWorld memEmpty 0 0 "" [] [].

(** A wall clock that advances one millisecond per reading. *)
Definition tick0 (k : nat) : Z := Z.of_nat k * time.Millisecond.


(* ================================================================== *)
(** * Vocabulary of the statements                                     *)
(* ================================================================== *)

(** [0, 1, ..., n-1] *)
Definition zseq (n : Z) : list Z := map Z.of_nat (seq 0 (Z.to_nat n)).

Definition minuteUser (i : Z) : User :=
  NewUser (i + 1) (time.Add base (time.scale i time.Minute))
          ("user" +++ fmt.d0 8 (i + 1) +++ "@example.com") true.

Definition largeUser (nsize i : Z) : User :=
  NewUser (i + 1) (time.Add base (time.scale i time.Second))
          (strings.Repeat "a" nsize) true.

Definition secondUser (i : Z) : User :=
  NewUser (i + 1) (time.Add base (time.scale i time.Second))
          ("user" +++ fmt.d (i + 1) +++ "@example.com") true.

Definition complexUser (u : Z) : User :=
  NewUser (u + 1) (time.Add base (time.scale u time.Minute))
          ("user" +++ fmt.d0 8 (u + 1) +++ "@example.com") (Z.rem u 2 =? 0).

Definition complexArticle (na u a : Z) : Article :=
  NewArticle (u * na + a + 1)
             (time.Add (time.Add base (time.scale u time.Minute))
                       (time.scale a time.Second))
             (u + 1) "article text".

Definition complexComment (na nc u a c : Z) : Comment :=
  NewComment ((u * na + a) * nc + c + 1)
             (time.Add
                (time.Add (time.Add base (time.scale u time.Minute))
                          (time.scale a time.Second))
                (time.scale c time.Millisecond))
             (u * na + a + 1) "comment text".

(** Closed form of the nested generator. *)
Definition complexArticles (nu na : Z) : list Article :=
  flat_map (fun u => map (complexArticle na u) (zseq na)) (zseq nu).

Definition complexComments (nu na nc : Z) : list Comment :=
  flat_map
    (fun u => flat_map (fun a => map (complexComment na nc u a) (zseq nc))
                       (zseq na))
    (zseq nu).


(** Every element of a slice satisfies [P] at its (0-based) position. *)
Definition allAt {A} (P : Z -> A -> Prop) (l : list A) : Prop :=
  forall i x, nth_error l i = Some x -> P (Z.of_nat i) x.

(** What the validators of the single-table scenarios check of the user
    at position [i]. *)
Definition userOk (yearLo yearHi : Z) (pre : string) (i : Z) (u : User)
  : Prop :=
  User_Id u = i + 1 /\
  yearLo <= time.Year (User_Created u) <= yearHi /\
  String.prefix pre (User_Email u) = true /\
  User_Active u = true.

(** Non-decreasing along the slice. *)
Definition nondecreasing {A} (key : A -> Z) (l : list A) : Prop :=
  forall i x y,
    nth_error l i = Some x -> nth_error l (Datatypes.S i) = Some y ->
    key x <= key y.

(** The world in which a run ends. *)
Definition final {St A} (o : Outcome St A) : World St :=
  match o with
  | Ok _ w => w
  | Fatal _ w => w
  end.

(** How a run ends: normally, or with the message of the fatal error. *)
Definition status {St A} (o : Outcome St A) : option string :=
  match o with
  | Ok _ _ => None
  | Fatal msg _ => Some msg
  end.

(** The events of goroutine [g]. *)
Definition tagged (g : nat) (evs : list Event) : list (nat * Event) :=
  map (pair g) evs.

(** The lines as the logger writes them. *)
Definition logged (prefix : string) (lines : list string) : list string :=
  map (String.append prefix) lines.

(** What the validator of the complex scenario checks of the user, the
    article and the comment at position [i]. *)
Definition complexUserOk (i : Z) (u : User) : Prop :=
  User_Id u = i + 1 /\
  time.Year (User_Created u) = 2023 /\
  String.prefix "user0" (User_Email u) = true /\
  User_Active u = (Z.rem i 2 =? 0).

Definition articleOk (nusers : Z) (i : Z) (a : Article) : Prop :=
  Article_Id a = i + 1 /\
  time.Year (Article_Created a) = 2023 /\
  1 <= Article_UserId a <= 1 + nusers /\
  Article_Text a = "article text".

Definition commentOk (nusers narticlesPerUser : Z) (i : Z) (c : Comment)
  : Prop :=
  Comment_Id c = i + 1 /\
  time.Year (Comment_Created c) = 2023 /\
  1 <= Comment_ArticleId c <= 1 + nusers * narticlesPerUser /\
  Comment_Text c = "comment text".

(** The events of goroutine [g] in a trace, in order. *)
Definition proj (g : nat) (tr : list (nat * Event)) : list Event :=
  map snd (filter (fun e => Nat.eqb (fst e) g) tr).

(** The events of a reader that ran the whole body of the [go func]: [r]
    is what its query returned, [v1] what [len(users)] read and [v2] what
    [range users] read. *)
Definition readerEvents (dbfile : string) (r v1 v2 : list User)
  : list Event :=
  [EvOpen dbfile; EvExec pragmaSql; EvFindUsers findUsersSql r;
   EvWriteUsers r; EvLenUsers v1; EvRangeUsers v2; EvClose].

(** The events a reader has caused when it stands at [pc]. *)
Definition readerAt {conn} (nusers : Z) (dbfile : string)
  (pc : @ReaderPc conn) (evs : list Event) : Prop :=
  exists r v1 v2,
    evs = firstn (match pc with
                  | R_open => 0
                  | R_exec _ => 1
                  | R_find _ => 2
                  | R_len _ => 4
                  | R_range _ => 5
                  | R_close _ => 6
                  | R_wgdone | R_finished => 7
                  end)%nat
                 (readerEvents dbfile r v1 v2) /\
    match pc with
    | R_open | R_exec _ | R_find _ | R_len _ => True
    | R_range _ => len v1 = nusers
    | _ => len v1 = nusers /\ allAt (userOk 2023 2023 "user") v2
    end.

Definition isFinished {conn} (pc : @ReaderPc conn) : bool :=
  match pc with
  | R_finished => true
  | _ => false
  end.

(** The readers that have not called [wg.Done()] yet. *)
Definition unfinished {conn} (readers : list (@ReaderPc conn)) : Z :=
  len (filter (fun pc => negb (isFinished pc)) readers).

(** A computation only appends events of the running goroutine to the
    trace, however it ends. *)
Definition tracks {St A} (m : M St A) : Prop :=
  forall w, exists evs,
    w_trace (final (m w)) = w_trace w ++ tagged (w_cur w) evs /\
    w_cur (final (m w)) = w_cur w.

(** The invariant of the fan-out machine started in the world [w0] by the
    goroutine [g0]: the events added so far are events of readers that
    have been started, each reader has caused the events of the part of
    the body it has run, the wait group counts the readers that have not
    finished, and nothing but the storage and the trace has changed. *)
Definition Inv {conn St} (nusers ngoroutines : Z) (dbfile : string)
  (g0 : nat) (w0 : World St) (c : @Conf conn St) : Prop :=
  (exists evs,
      w_trace (c_world c) = w_trace w0 ++ evs /\
      Forall (fun e => (g0 < fst e <= g0 + List.length (c_readers c))%nat)
             evs /\
      (c_fatal c = None ->
       forall k pc,
         nth_error (c_readers c) k = Some pc ->
         readerAt nusers dbfile pc (proj (g0 + Datatypes.S k) evs))) /\
  match c_main c with
  | M_spawn i => len (c_readers c) = i /\ i <= Z.max 0 ngoroutines
  | M_wait => len (c_readers c) = Z.max 0 ngoroutines
  | M_finished =>
      len (c_readers c) = Z.max 0 ngoroutines /\
      unfinished (c_readers c) = 0
  end /\
  c_wg c = unfinished (c_readers c) /\
  (c_fatal c = None ->
   w_out (c_world c) = w_out w0 /\
   w_clock (c_world c) = w_clock w0 /\
   w_prefix (c_world c) = w_prefix w0).

(* ------------------------------------------------------------------ *)
(** ** Row counts                                                      *)







(* ------------------------------------------------------------------ *)
(** ** The single-table scenarios                                      *)



(** The years and the e-mail prefix the validator of a scenario accepts. *)
Definition yearLo (sc : Scenario) : Z := 2023.

Definition yearHi (sc : Scenario) : Z :=
  match sc with
  | ScSimple => 2025
  | _ => 2023
  end.




(** The parameters the scenarios are defined for: [strings.Repeat]
    panics on a negative count, so [benchLarge] needs [nsize >= 0]; the
    loops of the other scenarios take any count. *)
Definition validSize (sc : Scenario) : Prop :=
  match sc with
  | ScLarge nsize => 0 <= nsize
  | _ => True
  end.

(* ------------------------------------------------------------------ *)
(** ** The report                                                      *)

(** A line of cells, each right-justified in a column of its width, the
    columns separated by one space. *)
Definition line (widths : list nat) (cells : list string) : string :=
  String.concat " "
    (map (fun p => fmt.s (fst p) (snd p)) (combine widths cells)).

Definition labelOf (sc : Scenario) : string :=
  match sc with
  | ScSimple => "simple"
  | ScComplex => "complex/200/100/20"
  | ScMany nusers => "many/N=" +++ fmt.d nusers
  | ScLarge nsize => "large/N=" +++ fmt.d nsize
  | ScConcurrent ngoroutines _ => "concurrent/N=" +++ fmt.d ngoroutines
  end.

(** The durations a scenario reports, from the readings of the clock:
    the run starts with [c] readings taken. *)
Definition insertMillis (tick : nat -> Z) (c : nat) : Z :=
  Z.quot (tick (1 + c)%nat - tick c) time.Millisecond.

Definition queryMillis (tick : nat -> Z) (sc : Scenario) (c : nat) : Z :=
  match sc with
  | ScLarge _ | ScConcurrent _ _ =>
      Z.quot (tick (1 + c)%nat - tick c) time.Millisecond
  | _ => Z.quot (tick (3 + c)%nat - tick (2 + c)%nat) time.Millisecond
  end.

(** A report of four columns, the insert duration among them. *)
Definition fourColumnReport (label : string) (ins q size : Z)
  : list string :=
  [ line [20; 12; 12; 12]%nat [label; "insert"; "query"; "dbsize"];
    line [20; 12; 12; 12]%nat [label; fmt.d ins; fmt.d q; fmt.d size] ].

(** A report of three columns, for the scenarios that do not report the
    insert duration. *)
Definition threeColumnReport (label : string) (q size : Z) : list string :=
  [ line [20; 12; 12]%nat [label; "query"; "dbsize"];
    line [20; 12; 12]%nat [label; fmt.d q; fmt.d size] ].

Definition reportLines (sc : Scenario) (ins q size : Z) : list string :=
  match sc with
  | ScSimple | ScComplex => fourColumnReport (labelOf sc) ins q size
  | _ => threeColumnReport (labelOf sc) q size
  end.

Definition reportWidth (sc : Scenario) : nat :=
  match sc with
  | ScSimple | ScComplex => 59
  | _ => 46
  end.

(* ------------------------------------------------------------------ *)
(** ** [Run]                                                           *)


(* ------------------------------------------------------------------ *)
(** ** Progress of the fan-out and use of connections                  *)


Definition isOpen (e : Event) : bool :=
  match e with
  | EvOpen _ => true
  | _ => false
  end.

Definition isClose (e : Event) : bool :=
  match e with
  | EvClose => true
  | _ => false
  end.

(** The use a goroutine makes of one connection to [dbfile]: it opens the
    connection, works on it, and closes it last. *)
Definition session (dbfile : string) (evs : list Event) : Prop :=
  exists work,
    evs = EvOpen dbfile :: work ++ [EvClose] /\
    Forall (fun e => isOpen e = false /\ isClose e = false) work.

(* ------------------------------------------------------------------ *)
(** ** The order of the complex query                                  *)

(** A row of the join of the complex query over the rows [g]: a comment
    with its article and the user of the article. *)
Definition joined (g : Gen) (u : User) (a : Article) (c : Comment) : Prop :=
  In u (g_users g) /\ In a (g_articles g) /\ In c (g_comments g) /\
  Article_UserId a = User_Id u /\ Comment_ArticleId c = Article_Id a.

(** The keys of [ORDER BY users.created, articles.created,
    comments.created] of a row of the join. *)
Definition orderKey (u : User) (a : Article) (c : Comment) : Z * Z * Z :=
  (User_Created u, Article_Created a, Comment_Created c).

(** The order of the [ORDER BY] on the keys. *)
Definition lexLt (x y : Z * Z * Z) : Prop :=
  fst (fst x) < fst (fst y) \/
  (fst (fst x) = fst (fst y) /\
   (snd (fst x) < snd (fst y) \/
    (snd (fst x) = snd (fst y) /\ snd x < snd y))).

(* ------------------------------------------------------------------ *)
(** ** What [verbose] changes                                          *)

(** Two worlds that differ at most in what has been logged. *)
Definition sameButLog {St} (w1 w2 : World St) : Prop :=
  w_store w1 = w_store w2 /\ w_cur w1 = w_cur w2 /\
  w_clock w1 = w_clock w2 /\ w_prefix w1 = w_prefix w2 /\
  w_trace w1 = w_trace w2.

(** Two computations that, from two such worlds, end in the same way,
    with the same result, in two such worlds. *)
Definition sim {St A} (m1 m2 : M St A) : Prop :=
  forall w1 w2, sameButLog w1 w2 ->
    match m1 w1, m2 w2 with
    | Ok a w1', Ok b w2' => a = b /\ sameButLog w1' w2'
    | Fatal x w1', Fatal y w2' => x = y /\ sameButLog w1' w2'
    | _, _ => False
    end.

(* ------------------------------------------------------------------ *)
(** ** The shared variable [users]                                     *)




(* ================================================================== *)
(** * Loops and generators                                             *)
(* ================================================================== *)

Lemma zseq_nonpos n : n <= 0 -> zseq n = [].
Proof.
  intros H. unfold zseq. replace (Z.to_nat n) with O by lia. reflexivity.
Qed.

Lemma zseq_succ n : 0 <= n -> zseq (n + 1) = zseq n ++ [n].
Proof.
  intros H. unfold zseq.
  replace (Z.to_nat (n + 1)) with (Datatypes.S (Z.to_nat n)) by lia.
  rewrite seq_S, map_app. cbn [map Nat.add]. f_equal. f_equal. lia.
Qed.

Lemma zseq_length n : len (zseq n) = Z.max 0 n.
Proof. unfold len, zseq. rewrite length_map, length_seq. lia. Qed.

Lemma in_zseq n i : In i (zseq n) <-> 0 <= i < n.
Proof.
  unfold zseq. rewrite in_map_iff. split.
  - intros (k & <- & Hk). apply in_seq in Hk. lia.
  - intros H. exists (Z.to_nat i). split; [lia|]. apply in_seq. lia.
Qed.

Lemma nth_error_zseq n i :
  (i < Z.to_nat n)%nat -> nth_error (zseq n) i = Some (Z.of_nat i).
Proof.
  intros H. unfold zseq. rewrite nth_error_map.
  rewrite nth_error_seq. 
  destruct (Nat.ltb_spec i (Z.to_nat n)); [reflexivity | lia].
Qed.

Section Loops.
Context {S : Type}.
Variable P : Z -> S -> Prop.
Variable body : Z -> S -> S.

Lemma forFrom_inv n : forall i s,
  P i s ->
  (forall j t, i <= j < i + Z.of_nat n -> P j t -> P (j + 1) (body j t)) ->
  P (i + Z.of_nat n) (forFrom n i body s).
Proof.
  induction n as [|n IH]; intros i s H0 Hstep.
  - cbn [forFrom Z.of_nat]. now rewrite Z.add_0_r.
  - cbn [forFrom].
    replace (i + Z.of_nat (Datatypes.S n)) with ((i + 1) + Z.of_nat n) by lia.
    apply IH.
    + apply Hstep; [lia | assumption].
    + intros j t Hj. apply Hstep. lia.
Qed.

Lemma forUpTo_inv hi s :
  0 <= hi ->
  P 0 s ->
  (forall j t, 0 <= j < hi -> P j t -> P (j + 1) (body j t)) ->
  P hi (forUpTo hi body s).
Proof.
  intros Hhi H0 Hstep. unfold forUpTo.
  pose proof (@forFrom_inv (Z.to_nat hi) 0 s H0) as H.
  rewrite Z2Nat.id in H by assumption. apply H.
  intros j t Hj. apply Hstep. lia.
Qed.

End Loops.

Lemma forUpTo_collect {A} (f : Z -> A) hi :
  forUpTo hi (fun i l => l ++ [f i]) [] = map f (zseq hi).
Proof.
  destruct (Z.le_gt_cases 0 hi) as [H|H].
  - apply (forUpTo_inv (fun i l => l = map f (zseq i))); trivial.
    intros j t Hj ->. rewrite zseq_succ, map_app by lia. reflexivity.
  - unfold forUpTo. rewrite zseq_nonpos by lia.
    replace (Z.to_nat hi) with O by lia. reflexivity.
Qed.

Lemma minuteUsers_eq n : minuteUsers n = map minuteUser (zseq n).
Proof. apply (forUpTo_collect minuteUser). Qed.

Lemma largeUsers_eq n nsize : largeUsers n nsize = map (largeUser nsize) (zseq n).
Proof. apply (forUpTo_collect (largeUser nsize)). Qed.

Lemma secondUsers_eq n : secondUsers n = map secondUser (zseq n).
Proof. apply (forUpTo_collect secondUser). Qed.

Lemma flat_map_snoc {A B} (f : A -> list B) l x :
  flat_map f (l ++ [x]) = flat_map f l ++ f x.
Proof. rewrite flat_map_app. simpl. now rewrite app_nil_r. Qed.

Lemma genComments_eq u a na nc g :
  0 <= nc -> g_articleId g = u * na + a + 1 ->
  g_commentId g = (u * na + a) * nc ->
  genComments u a nc g =
  mkGen (g_users g) (g_articles g)
        (g_comments g ++ map (complexComment na nc u a) (zseq nc))
        (g_userId g) (g_articleId g) ((u * na + a) * nc + nc).
Proof.
  intros Hnc Ha Hc. unfold genComments.
  apply (forUpTo_inv
    (fun c g' => g' = mkGen (g_users g) (g_articles g)
        (g_comments g ++ map (complexComment na nc u a) (zseq c))
        (g_userId g) (g_articleId g) ((u * na + a) * nc + c))); trivial.
  - destruct g as [gu ga gc gi gj gk]; cbn [g_users g_articles g_comments g_userId g_articleId g_commentId] in *.
    rewrite zseq_nonpos by lia. cbn [map]. rewrite app_nil_r. f_equal. lia.
  - intros j t Hj ->. cbn [g_users g_articles g_comments g_userId g_articleId g_commentId].
    rewrite zseq_succ, map_app, app_assoc by lia. f_equal; [|lia].
    f_equal. cbn [map]. unfold complexComment. rewrite Ha. reflexivity.
Qed.

Lemma genArticles_eq u na nc g :
  0 <= na -> 0 <= nc -> g_userId g = u + 1 ->
  g_articleId g = u * na -> g_commentId g = u * na * nc ->
  genArticles u na nc g =
  mkGen (g_users g)
        (g_articles g ++ map (complexArticle na u) (zseq na))
        (g_comments g ++
           flat_map (fun a => map (complexComment na nc u a) (zseq nc))
                    (zseq na))
        (g_userId g) (u * na + na) ((u * na + na) * nc).
Proof.
  intros Hna Hnc Hu Ha Hc. unfold genArticles.
  apply (forUpTo_inv
    (fun a g' => g' = mkGen (g_users g)
        (g_articles g ++ map (complexArticle na u) (zseq a))
        (g_comments g ++
           flat_map (fun a => map (complexComment na nc u a) (zseq nc))
                    (zseq a))
        (g_userId g) (u * na + a) ((u * na + a) * nc))); trivial.
  - destruct g as [gu ga gc gi gj gk]; cbn [g_users g_articles g_comments g_userId g_articleId g_commentId] in *.
    rewrite zseq_nonpos by lia. cbn [map flat_map]. rewrite !app_nil_r. f_equal; lia.
  - intros j t Hj ->.
    rewrite (genComments_eq u j na)
      by (cbn [g_users g_articles g_comments g_userId g_articleId g_commentId]; trivial; lia).
    cbn [g_users g_articles g_comments g_userId g_articleId g_commentId].
    rewrite zseq_succ, map_app, flat_map_snoc, !app_assoc by lia.
    f_equal; try lia.
    f_equal. cbn [map]. unfold complexArticle. rewrite Hu. reflexivity.
Qed.

Lemma genComplex_eq nu na nc :
  0 <= nu -> 0 <= na -> 0 <= nc ->
  genComplex nu na nc =
  mkGen (map complexUser (zseq nu)) (complexArticles nu na)
        (complexComments nu na nc) nu (nu * na) (nu * na * nc).
Proof.
  intros Hnu Hna Hnc. unfold genComplex.
  apply (forUpTo_inv
    (fun u g' => g' = mkGen (map complexUser (zseq u)) (complexArticles u na)
        (complexComments u na nc) u (u * na) (u * na * nc))); trivial.
  intros j t Hj ->.
  rewrite genArticles_eq
    by (cbn [g_users g_articles g_comments g_userId g_articleId g_commentId]; trivial; lia).
  cbn [g_users g_articles g_comments g_userId g_articleId g_commentId].
  unfold complexArticles, complexComments.
  rewrite zseq_succ, map_app, !flat_map_snoc by lia.
  f_equal; lia.
Qed.

Lemma last_cons_default {A} (l : list A) : forall x d, last (x :: l) d = last l x.
Proof.
  induction l as [|y l IH]; intros x d; [reflexivity|].
  change (last (x :: y :: l) d) with (last (y :: l) d).
  rewrite (IH y d), (IH y x). reflexivity.
Qed.


(* ================================================================== *)
(** * Runs that return                                                 *)
(* ================================================================== *)

Lemma bind_Ok {St A B} (m : M St A) (k : A -> M St B) w b w' :
  bind m k w = Ok b w' ->
  exists a w1, m w = Ok a w1 /\ k a w1 = Ok b w'.
Proof.
  unfold bind. destruct (m w) as [a w1|msg w1]; [|discriminate].
  intros H. now exists a, w1.
Qed.

Lemma ret_Ok {St A} (a b : A) (w w' : World St) :
  ret a w = Ok b w' -> b = a /\ w' = w.
Proof. unfold ret. intros H. injection H as H1 H2. now split. Qed.

Lemma logPrint_Ok {St} msg (w w' : World St) u :
  logPrint msg w = Ok u w' -> w' = add_line msg w.
Proof. unfold logPrint. intros H. now injection H as _ <-. Qed.

Lemma emit_Ok {St} e (w w' : World St) u :
  emit e w = Ok u w' -> w' = add_event e w.
Proof. unfold emit. intros H. now injection H as _ <-. Qed.

Lemma MustBeEqual_Ok {St A} `{Eqb A} (x y : A) (w w' : World St) u :
  MustBeEqual x y w = Ok u w' -> eqb x y = true /\ w' = w.
Proof.
  unfold MustBeEqual. destruct (eqb x y).
  - intros E. apply ret_Ok in E. now split.
  - discriminate.
Qed.

Lemma MustBe_Ok {St} c (w w' : World St) u :
  MustBe c w = Ok u w' -> c = true /\ w' = w.
Proof.
  unfold MustBe. destruct c.
  - intros E. apply ret_Ok in E. now split.
  - discriminate.
Qed.

Lemma Must_Ok {St} c msg (w w' : World St) u :
  Must c msg w = Ok u w' -> c = true /\ w' = w.
Proof.
  unfold Must. destruct c.
  - intros E. apply ret_Ok in E. now split.
  - discriminate.
Qed.

Lemma sliceM_Ok {St} s lo hi (w w' : World St) r :
  sliceM s lo hi w = Ok r w' -> strings.slice s lo hi = Some r /\ w' = w.
Proof.
  unfold sliceM. destruct (strings.slice s lo hi).
  - intros E. apply ret_Ok in E. destruct E as [-> ->]. now split.
  - discriminate.
Qed.

Lemma indexM_Ok {St A} (xs : list A) i (w w' : World St) x :
  indexM xs i w = Ok x w' ->
  0 <= i /\ nth_error xs (Z.to_nat i) = Some x /\ w' = w.
Proof.
  unfold indexM. destruct (Z.ltb_spec i 0).
  - discriminate.
  - destruct (nth_error xs (Z.to_nat i)); [|discriminate].
    intros E. apply ret_Ok in E. destruct E as [-> ->]. now repeat split.
Qed.

Lemma eqb_Z_true (x y : Z) : eqb x y = true -> x = y.
Proof. apply Z.eqb_eq. Qed.

Lemma eqb_bool_true (x y : bool) : eqb x y = true -> x = y.
Proof. apply Bool.eqb_prop. Qed.

Lemma eqb_string_true (x y : string) : eqb x y = true -> x = y.
Proof. apply String.eqb_eq. Qed.

Lemma slice_prefix p s :
  strings.slice s 0 (String.length p) = Some p -> String.prefix p s = true.
Proof.
  unfold strings.slice.
  destruct ((0 <=? String.length p)%nat && (String.length p <=? String.length s)%nat);
    [|discriminate].
  intros E. injection E as E. rewrite Nat.sub_0_r in E.
  now apply prefix_correct.
Qed.

Section RunLemmas.

Context {conn St : Type} {DB : Db conn St}.
Variable tick : nat -> Z.

Lemma timeNow_Ok (w w' : World St) t :
  timeNow tick w = Ok t w' -> t = tick (w_clock w) /\ w' = tick_clock w.
Proof. unfold timeNow. intros E. injection E as E1 E2. now split. Qed.

Lemma millisSince_Ok t0 (w w' : World St) ms :
  millisSince tick t0 w = Ok ms w' ->
  ms = Z.quot (tick (w_clock w) - t0) time.Millisecond /\ w' = tick_clock w.
Proof.
  unfold millisSince. intros E. apply bind_Ok in E.
  destruct E as (t & w1 & E1 & E2).
  apply timeNow_Ok in E1. destruct E1 as [-> ->].
  apply ret_Ok in E2. destruct E2 as [-> ->]. now split.
Qed.

Lemma call_Ok {A} (op : St -> Res (A * St)) ev (w w' : World St) a :
  call op ev w = Ok a w' ->
  exists s, op (w_store w) = Done (a, s) /\
            w' = add_event (ev a) (set_store s w).
Proof.
  unfold call. destruct (op (w_store w)) as [[a' s]|msg]; [|discriminate].
  intros E. injection E as <- <-. now exists s.
Qed.

Lemma only_Done (op : St -> Res St) s u s' :
  only op s = Done (u, s') -> op s = Done s'.
Proof.
  unfold only. destruct (op s); [|discriminate].
  intros E. congruence.
Qed.

Lemma removeDbfiles_Ok dbfile (w w' : World St) u :
  removeDbfiles dbfile w = Ok u w' ->
  w' = add_event (EvRemove dbfile) (set_store (fs_remove dbfile (w_store w)) w).
Proof. unfold removeDbfiles. intros E. now injection E as _ <-. Qed.

Lemma dbsize_Ok dbfile (w w' : World St) n :
  dbsize dbfile w = Ok n w' -> n = fs_size dbfile (w_store w) /\ w' = w.
Proof. unfold dbsize. intros E. injection E as E1 E2. now split. Qed.

End RunLemmas.

Ltac world_simpl :=
  cbn [w_store w_cur w_clock w_prefix w_out w_trace
       set_store set_cur set_prefix add_line add_event tick_clock] in *.

(** Steps with a lemma of their own; extended as the lemmas are proved. *)
Ltac run_leaf H := fail.

(** Decomposition of a run that returned into its steps. *)
Ltac run_inv H :=
  lazymatch type of H with
  | bind _ _ _ = Ok _ _ =>
      let Hm := fresh "Hm" in
      let a := fresh "a" in
      let w := fresh "w" in
      apply bind_Ok in H; destruct H as (a & w & Hm & H);
      lazymatch type of a with unit => destruct a | _ => idtac end;
      run_inv Hm; run_inv H
  | ret _ _ = Ok _ _ =>
      apply ret_Ok in H; destruct H as [? ?]; subst
  | logPrint _ _ = Ok _ _ => apply logPrint_Ok in H; subst
  | emit _ _ = Ok _ _ => apply emit_Ok in H; subst
  | MustBeEqual _ _ _ = Ok _ _ =>
      apply MustBeEqual_Ok in H; destruct H as [H ?]; subst
  | MustBe _ _ = Ok _ _ => apply MustBe_Ok in H; destruct H as [H ?]; subst
  | Must _ _ _ = Ok _ _ => apply Must_Ok in H; destruct H as [H ?]; subst
  | sliceM _ _ _ _ = Ok _ _ =>
      apply sliceM_Ok in H; destruct H as [H ?]; subst
  | indexM _ _ _ = Ok _ _ =>
      apply indexM_Ok in H; destruct H as (? & H & ?); subst
  | timeNow _ _ = Ok _ _ => apply timeNow_Ok in H; destruct H as [? ?]; subst
  | millisSince _ _ _ = Ok _ _ =>
      apply millisSince_Ok in H; destruct H as [? ?]; subst
  | removeDbfiles _ _ = Ok _ _ => apply removeDbfiles_Ok in H; subst
  | dbsize _ _ = Ok _ _ => apply dbsize_Ok in H; destruct H as [? ?]; subst
  | initSchema _ _ = Ok _ _ => unfold initSchema in H; run_inv H
  | makeDb _ _ = Ok _ _ => unfold makeDb in H; run_inv H
  | Exec _ _ _ = Ok _ _ => unfold Exec in H; run_inv H
  | InsertUsers _ _ _ _ = Ok _ _ => unfold InsertUsers in H; run_inv H
  | InsertArticles _ _ _ _ = Ok _ _ => unfold InsertArticles in H; run_inv H
  | InsertComments _ _ _ _ = Ok _ _ => unfold InsertComments in H; run_inv H
  | FindUsers _ _ _ = Ok _ _ => unfold FindUsers in H; run_inv H
  | FindUsersArticlesComments _ _ _ = Ok _ _ =>
      unfold FindUsersArticlesComments in H; run_inv H
  | Close _ _ = Ok _ _ => unfold Close in H; run_inv H
  | call _ _ _ = Ok _ _ =>
      let s := fresh "s" in
      let Hop := fresh "Hop" in
      apply call_Ok in H; destruct H as (s & Hop & ?); subst
  | when _ _ _ = Ok _ _ => unfold when in H; run_inv H
  | (if true then _ else _) _ = Ok _ _ => cbv iota in H; run_inv H
  | (if false then _ else _) _ = Ok _ _ => cbv iota in H; run_inv H
  | (if ?b then _ else _) _ = Ok _ _ =>
      tryif is_var b then (destruct b; run_inv H) else idtac
  | _ => try (run_leaf H)
  end;
  world_simpl.

(** The checks that passed, as propositions. *)
Ltac checks :=
  repeat match goal with
    | H : @eqb Z _ _ _ = true |- _ => apply eqb_Z_true in H
    | H : @eqb bool _ _ _ = true |- _ => apply eqb_bool_true in H
    | H : @eqb string _ _ _ = true |- _ => apply eqb_string_true in H
    | H : (_ && _)%bool = true |- _ => apply andb_prop in H; destruct H
    | H : (_ <=? _) = true |- _ => apply Z.leb_le in H
    | H : (_ >=? _) = true |- _ => rewrite Z.geb_le in H
    | H : (_ >? _) = true |- _ => rewrite Z.gtb_lt in H
    | H : (_ >? _) = false |- _ => rewrite Z.gtb_ltb, Z.ltb_ge in H
    end;
  subst;
  repeat match goal with
    | H : strings.slice ?s 0 _ = Some ?p |- _ => apply (@slice_prefix p s) in H
    end.

Section Validators.

Context {St : Type}.

Lemma forRangeFrom_Ok {A} (P : Z -> A -> Prop) (body : Z -> A -> M St unit) :
  (forall j x w1 w2, body j x w1 = Ok tt w2 -> w2 = w1 /\ P j x) ->
  forall l i w w',
    forRangeFrom i l body w = Ok tt w' ->
    w' = w /\
    forall k x, nth_error l k = Some x -> P (i + Z.of_nat k) x.
Proof.
  intros Hbody. induction l as [|y l IH]; intros i w w' E.
  - cbn [forRangeFrom] in E. apply ret_Ok in E. destruct E as [_ ->].
    split; [reflexivity|]. intros [|k] x; discriminate.
  - cbn [forRangeFrom] in E. apply bind_Ok in E.
    destruct E as ([] & w1 & E1 & E2).
    apply Hbody in E1. destruct E1 as [-> Hy].
    apply IH in E2. destruct E2 as [-> Hl].
    split; [reflexivity|]. intros [|k] x Hx.
    + cbn [nth_error] in Hx. injection Hx as <-.
      now rewrite Z.add_0_r.
    + cbn [nth_error] in Hx. apply Hl in Hx.
      now replace (i + Z.of_nat (Datatypes.S k)) with (i + 1 + Z.of_nat k) by lia.
Qed.

Lemma forRange_Ok {A} (P : Z -> A -> Prop) (body : Z -> A -> M St unit) l w w' :
  (forall j x w1 w2, body j x w1 = Ok tt w2 -> w2 = w1 /\ P j x) ->
  forRange l body w = Ok tt w' ->
  w' = w /\ allAt P l.
Proof.
  intros Hbody E. unfold forRange in E.
  apply (forRangeFrom_Ok P body Hbody) in E. destruct E as [-> H].
  split; [reflexivity|]. intros k x Hx. now apply H in Hx.
Qed.

Lemma validateSimple_Ok users (w w' : World St) :
  validateSimple users w = Ok tt w' ->
  w' = w /\ allAt (userOk 2023 2025 "user0") users.
Proof.
  apply forRange_Ok. intros j x w1 w2 E.
  run_inv E. checks. split; [reflexivity|].
  unfold userOk. repeat split; try easy; lia.
Qed.

Lemma validateMany_Ok users (w w' : World St) :
  validateMany users w = Ok tt w' ->
  w' = w /\ allAt (userOk 2023 2023 "user0") users.
Proof.
  apply forRange_Ok. intros j x w1 w2 E.
  run_inv E. checks. split; [reflexivity|].
  unfold userOk. repeat split; try easy; lia.
Qed.

Lemma validateLarge_Ok users (w w' : World St) :
  validateLarge users w = Ok tt w' ->
  w' = w /\ allAt (userOk 2023 2023 "a") users.
Proof.
  apply forRange_Ok. intros j x w1 w2 E.
  run_inv E. checks. split; [reflexivity|].
  unfold userOk. repeat split; try easy; lia.
Qed.

Lemma validateConcurrent_Ok users (w w' : World St) :
  validateConcurrent users w = Ok tt w' ->
  w' = w /\ allAt (userOk 2023 2023 "user") users.
Proof.
  apply forRange_Ok. intros j x w1 w2 E.
  run_inv E. checks. split; [reflexivity|].
  unfold userOk. repeat split; try easy; lia.
Qed.

Lemma validateComplexUsers_Ok users (w w' : World St) :
  validateComplexUsers users w = Ok tt w' ->
  w' = w /\ allAt complexUserOk users.
Proof.
  apply forRange_Ok. intros j x w1 w2 E.
  run_inv E. checks. split; [reflexivity|].
  unfold complexUserOk. repeat split; try easy; lia.
Qed.

(** The comparison with the previous element, at every position but the
    first, makes the key non-decreasing along the slice. *)
Lemma allAt_nondecreasing {A} (key : A -> Z) (l : list A) :
  allAt (fun i x => 0 < i ->
                    exists y, nth_error l (Z.to_nat (i - 1)) = Some y /\
                              key y <= key x) l ->
  nondecreasing key l.
Proof.
  intros H i x y Hx Hy. apply H in Hy.
  destruct Hy as (z & Hz & Hle); [lia|].
  replace (Z.to_nat (Z.of_nat (Datatypes.S i) - 1)) with i in Hz by lia.
  congruence.
Qed.

Lemma allAt_and {A} (P Q : Z -> A -> Prop) l :
  allAt (fun i x => P i x /\ Q i x) l -> allAt P l /\ allAt Q l.
Proof. intros H. split; intros i x Hx; now apply H in Hx. Qed.

Lemma validateComplexArticles_Ok nusers articles (w w' : World St) :
  validateComplexArticles nusers articles w = Ok tt w' ->
  w' = w /\ allAt (articleOk nusers) articles /\
  nondecreasing Article_UserId articles.
Proof.
  intros E.
  apply (forRange_Ok
    (fun i x => articleOk nusers i x /\
       (0 < i -> exists y, nth_error articles (Z.to_nat (i - 1)) = Some y /\
                           Article_UserId y <= Article_UserId x))) in E.
  - destruct E as [-> H]. apply allAt_and in H. destruct H as [H1 H2].
    split; [reflexivity|]. split; [assumption|].
    now apply allAt_nondecreasing.
  - clear E. intros j x w1 w2 E. run_inv E.
    destruct (j >? 0) eqn:Hj; run_inv E; checks.
    + split; [reflexivity|]. split.
      * unfold articleOk. repeat split; try easy; lia.
      * intros _. eexists. split; [eassumption|lia].
    + split; [reflexivity|]. split.
      * unfold articleOk. repeat split; try easy; lia.
      * intros ?. lia.
Qed.

Lemma validateComplexComments_Ok nusers narticlesPerUser comments
  (w w' : World St) :
  validateComplexComments nusers narticlesPerUser comments w = Ok tt w' ->
  w' = w /\ allAt (commentOk nusers narticlesPerUser) comments /\
  nondecreasing Comment_ArticleId comments.
Proof.
  intros E.
  apply (forRange_Ok
    (fun i x => commentOk nusers narticlesPerUser i x /\
       (0 < i -> exists y, nth_error comments (Z.to_nat (i - 1)) = Some y /\
                           Comment_ArticleId y <= Comment_ArticleId x))) in E.
  - destruct E as [-> H]. apply allAt_and in H. destruct H as [H1 H2].
    split; [reflexivity|]. split; [assumption|].
    now apply allAt_nondecreasing.
  - clear E. intros j x w1 w2 E. run_inv E.
    destruct (j >? 0) eqn:Hj; run_inv E; checks.
    + split; [reflexivity|]. split.
      * unfold commentOk. repeat split; try easy; lia.
      * intros _. eexists. split; [eassumption|lia].
    + split; [reflexivity|]. split.
      * unfold commentOk. repeat split; try easy; lia.
      * intros ?. lia.
Qed.

End Validators.

Ltac run_leaf H ::=
  lazymatch type of H with
  | validateSimple _ _ = Ok _ _ =>
      apply validateSimple_Ok in H; destruct H as [? H]; subst
  | validateMany _ _ = Ok _ _ =>
      apply validateMany_Ok in H; destruct H as [? H]; subst
  | validateLarge _ _ = Ok _ _ =>
      apply validateLarge_Ok in H; destruct H as [? H]; subst
  | validateConcurrent _ _ = Ok _ _ =>
      apply validateConcurrent_Ok in H; destruct H as [? H]; subst
  | validateComplexUsers _ _ = Ok _ _ =>
      apply validateComplexUsers_Ok in H; destruct H as [? H]; subst
  | validateComplexArticles _ _ _ = Ok _ _ =>
      apply validateComplexArticles_Ok in H; destruct H as (? & H & ?); subst
  | validateComplexComments _ _ _ _ = Ok _ _ =>
      apply validateComplexComments_Ok in H; destruct H as (? & H & ?); subst
  end.


(* ================================================================== *)
(** * What a scenario that returned has done                           *)
(* ================================================================== *)

Ltac lists := cbn [tagged logged map app]; repeat rewrite <- app_assoc;
              cbn [app].

Section Scenarios.

Context {conn St : Type} {DB : Db conn St}.
Variable tick : nat -> Z.

Lemma benchSimpleWith_Ok nusers dbfile verbose (w w' : World St) :
  benchSimpleWith tick nusers dbfile verbose w = Ok tt w' ->
  exists res size,
    w_trace w' = w_trace w ++ tagged (w_cur w)
      [EvRemove dbfile; EvOpen dbfile; EvExec schemaSql;
       EvInsertUsers insertUserSql (minuteUsers nusers);
       EvFindUsers findUsersSql res; EvClose] /\
    len res = nusers /\
    allAt (userOk 2023 2025 "user0") res /\
    let c := w_clock w in
    let ins := Z.quot (tick (1 + c)%nat - tick c) time.Millisecond in
    let q := Z.quot (tick (3 + c)%nat - tick (2 + c)%nat) time.Millisecond in
    w_out w' = w_out w ++ logged (w_prefix w)
      ((if verbose
        then ["  insert took " +++ fmt.d ins +++ " ms";
              "  query took " +++ fmt.d q +++ " ms"]
        else [])
       ++ [header4 "simple" "insert" "query" "dbsize";
           data4 "simple" ins q size]) /\
    exists db s,
      size = fs_size dbfile s /\ db_Close db s = Done (w_store w').
Proof.
  intros H. unfold benchSimpleWith in H. cbv zeta in H.
  run_inv H; checks;
    do 2 eexists;
    (split; [lists; reflexivity|]);
    (split; [reflexivity|]);
    (split; [eassumption|]);
    cbv zeta; (split; [lists; reflexivity|]);
    do 2 eexists; (split; [reflexivity|]);
    eapply only_Done; eassumption.
Qed.

Lemma benchLargeWith_Ok nusers dbfile verbose nsize (w w' : World St) :
  benchLargeWith tick nusers dbfile verbose nsize w = Ok tt w' ->
  exists res size,
    w_trace w' = w_trace w ++ tagged (w_cur w)
      [EvRemove dbfile; EvOpen dbfile; EvExec schemaSql;
       EvInsertUsers insertUserSql (largeUsers nusers nsize);
       EvFindUsers findUsersSql res; EvClose] /\
    len res = nusers /\
    allAt (userOk 2023 2023 "a") res /\
    let c := w_clock w in
    let q := Z.quot (tick (1 + c)%nat - tick c) time.Millisecond in
    w_out w' = w_out w ++ logged (w_prefix w)
      ((if verbose then ["  query took " +++ fmt.d q +++ " ms"] else [])
       ++ [header3 ("large/N=" +++ fmt.d nsize) "query" "dbsize";
           data3 ("large/N=" +++ fmt.d nsize) q size]) /\
    exists db s,
      size = fs_size dbfile s /\ db_Close db s = Done (w_store w').
Proof.
  intros H. unfold benchLargeWith in H. cbv zeta in H.
  run_inv H; checks;
    do 2 eexists;
    (split; [lists; reflexivity|]);
    (split; [reflexivity|]);
    (split; [eassumption|]);
    cbv zeta; (split; [lists; reflexivity|]);
    do 2 eexists; (split; [reflexivity|]);
    eapply only_Done; eassumption.
Qed.

Lemma benchComplexWith_Ok nu na nc dbfile verbose (w w' : World St) :
  benchComplexWith tick nu na nc dbfile verbose w = Ok tt w' ->
  exists us ars cs size,
    w_trace w' = w_trace w ++ tagged (w_cur w)
      [EvRemove dbfile; EvOpen dbfile; EvExec schemaSql;
       EvInsertUsers insertUserSql (g_users (genComplex nu na nc));
       EvInsertArticles insertArticleSql (g_articles (genComplex nu na nc));
       EvInsertComments insertCommentSql (g_comments (genComplex nu na nc));
       EvFindUsersArticlesComments complexQuerySql us ars cs; EvClose] /\
    (len us = nu /\ len ars = nu * na /\ len cs = nu * na * nc) /\
    (allAt complexUserOk us /\ allAt (articleOk nu) ars /\
     allAt (commentOk nu na) cs) /\
    (nondecreasing Article_UserId ars /\
     nondecreasing Comment_ArticleId cs) /\
    let c := w_clock w in
    let ins := Z.quot (tick (1 + c)%nat - tick c) time.Millisecond in
    let q := Z.quot (tick (3 + c)%nat - tick (2 + c)%nat) time.Millisecond in
    let label := "complex/" +++ fmt.d nu +++ "/" +++ fmt.d na +++ "/"
                 +++ fmt.d nc in
    w_out w' = w_out w ++ logged (w_prefix w)
      ((if verbose
        then ["nusers = " +++ fmt.d nu;
              "narticlesPerUser = " +++ fmt.d na;
              "ncommentsPerArticle = " +++ fmt.d nc;
              "  insert took " +++ fmt.d ins +++ " ms";
              "  query took " +++ fmt.d q +++ " ms"]
        else [])
       ++ [header4 label "insert" "query" "dbsize";
           data4 label ins q size]) /\
    exists db s,
      size = fs_size dbfile s /\ db_Close db s = Done (w_store w').
Proof.
  intros H. unfold benchComplexWith in H. cbv zeta in H.
  run_inv H;
    repeat match goal with
      | H : eqb _ _ = true |- _ => apply eqb_Z_true in H
      end;
    match goal with
    | r : (list User * list Article * list Comment)%type |- _ =>
        destruct r as [[us ars] cs]
    end;
    cbn [fst snd] in *;
    exists us, ars, cs; eexists;
    (split; [lists; reflexivity|]);
    (split; [split; [|split]; congruence|]);
    (split; [split; [|split]; assumption|]);
    (split; [split; assumption|]);
    cbv zeta; (split; [lists; reflexivity|]);
    do 2 eexists; (split; [reflexivity|]);
    eapply only_Done; eassumption.
Qed.

(** The querying loop of [benchMany]. *)
Lemma findLoop_Ok (db : conn) nusers n : forall i users0 (w w' : World St) users,
  forFromM n i
    (fun _ _ =>
       users <- FindUsers db findUsersSql ;;
       MustBeEqual (len users) nusers ;;
       ret users)
    users0 w = Ok users w' ->
  exists ress s',
    List.length ress = n /\
    Forall (fun r => len r = nusers) ress /\
    users = last ress users0 /\
    w' = mkWorld s' (w_cur w) (w_clock w) (w_prefix w) (w_out w)
           (w_trace w
            ++ tagged (w_cur w) (map (EvFindUsers findUsersSql) ress)).
Proof.
  induction n as [|n IH]; intros i users0 w w' users H.
  - cbn [forFromM] in H. run_inv H.
    exists [], (w_store w). repeat split; trivial.
    cbn [tagged map]. rewrite app_nil_r. now destruct w.
  - cbn [forFromM] in H. apply bind_Ok in H.
    destruct H as (r & w1 & H1 & H2).
    run_inv H1. checks.
    apply IH in H2. destruct H2 as (ress & s' & Hlen & Hall & -> & ->).
    world_simpl.
    match goal with
    | Hop : db_FindUsers _ _ _ = Done (?r, _) |- _ => exists (r :: ress), s'
    end.
    repeat split.
    + cbn [List.length]. now rewrite Hlen.
    + now constructor.
    + symmetry. apply last_cons_default.
    + lists. reflexivity.
Qed.

Lemma benchMany_Ok dbfile verbose nusers (w w' : World St) :
  benchMany tick dbfile verbose nusers w = Ok tt w' ->
  exists ress size,
    List.length ress = 1000%nat /\
    Forall (fun r => len r = nusers) ress /\
    w_trace w' = w_trace w ++ tagged (w_cur w)
      ([EvRemove dbfile; EvOpen dbfile; EvExec schemaSql;
        EvInsertUsers insertUserSql (minuteUsers nusers)]
       ++ map (EvFindUsers findUsersSql) ress ++ [EvClose]) /\
    allAt (userOk 2023 2023 "user0") (last ress (minuteUsers nusers)) /\
    let c := w_clock w in
    let ins := Z.quot (tick (1 + c)%nat - tick c) time.Millisecond in
    let q := Z.quot (tick (3 + c)%nat - tick (2 + c)%nat) time.Millisecond in
    w_out w' = w_out w ++ logged (w_prefix w)
      ((if verbose
        then ["  insert took " +++ fmt.d ins +++ " ms";
              "  query took " +++ fmt.d q +++ " ms"]
        else [])
       ++ [header3 ("many/N=" +++ fmt.d nusers) "query" "dbsize";
           data3 ("many/N=" +++ fmt.d nusers) q size]) /\
    exists db s,
      size = fs_size dbfile s /\ db_Close db s = Done (w_store w').
Proof.
  intros H. unfold benchMany in H. cbv zeta in H.
  run_inv H;
    match goal with
    | H : forUpToM _ _ _ _ = Ok _ _ |- _ =>
        unfold forUpToM in H; apply findLoop_Ok in H;
        destruct H as (ress & s' & Hlen & Hall & -> & ->)
    end;
    world_simpl;
    exists ress; eexists;
    (split; [rewrite Hlen; reflexivity|]);
    (split; [assumption|]);
    (split; [unfold tagged; rewrite !map_app; lists; reflexivity|]);
    (split; [assumption|]);
    cbv zeta; (split; [lists; reflexivity|]);
    do 2 eexists; (split; [reflexivity|]);
    eapply only_Done; eassumption.
Qed.

End Scenarios.


(* ================================================================== *)
(** * Traces of runs, however they end                                 *)
(* ================================================================== *)

Section Tracks.

Context {conn St : Type} {DB : Db conn St}.
Variable tick : nat -> Z.

Lemma tracks_same {A} (m : M St A) :
  (forall w, w_trace (final (m w)) = w_trace w /\
             w_cur (final (m w)) = w_cur w) ->
  tracks m.
Proof.
  intros H w. exists []. destruct (H w) as [E1 E2].
  cbn [tagged map]. now rewrite app_nil_r.
Qed.

Lemma tracks_ret {A} (a : A) : tracks (ret (St:=St) a).
Proof. apply tracks_same. now intros w. Qed.

Lemma tracks_bind {A B} (m : M St A) (k : A -> M St B) :
  tracks m -> (forall a, tracks (k a)) -> tracks (bind m k).
Proof.
  intros Hm Hk w. unfold bind.
  destruct (Hm w) as (e1 & E1 & C1).
  destruct (m w) as [a w1|msg w1]; cbn [final] in *.
  - destruct (Hk a w1) as (e2 & E2 & C2).
    exists (e1 ++ e2). rewrite E2, C2, E1, C1.
    unfold tagged. now rewrite map_app, app_assoc.
  - now exists e1.
Qed.

Lemma tracks_logPrint msg : tracks (logPrint (St:=St) msg).
Proof. apply tracks_same. now intros w. Qed.

Lemma tracks_logFatal {A} msg : tracks (logFatal (St:=St) (A:=A) msg).
Proof. apply tracks_same. now intros w. Qed.

Lemma tracks_panic {A} msg : tracks (panic (St:=St) (A:=A) msg).
Proof. apply tracks_same. now intros w. Qed.

Lemma tracks_emit e : tracks (emit (St:=St) e).
Proof. intros w. now exists [e]. Qed.

Lemma tracks_MustBeEqual {A} `{Eqb A} (x y : A) :
  tracks (MustBeEqual (St:=St) x y).
Proof.
  unfold MustBeEqual. destruct (eqb x y);
    [apply tracks_ret | apply tracks_logFatal].
Qed.

Lemma tracks_MustBe c : tracks (MustBe (St:=St) c).
Proof.
  unfold MustBe. destruct c; [apply tracks_ret | apply tracks_logFatal].
Qed.

Lemma tracks_Must c msg : tracks (Must (St:=St) c msg).
Proof.
  unfold Must. destruct c; [apply tracks_ret | apply tracks_logFatal].
Qed.

Lemma tracks_sliceM s lo hi : tracks (sliceM (St:=St) s lo hi).
Proof.
  unfold sliceM. destruct (strings.slice s lo hi);
    [apply tracks_ret | apply tracks_panic].
Qed.

Lemma tracks_indexM {A} (xs : list A) i : tracks (indexM (St:=St) xs i).
Proof.
  unfold indexM.
  destruct (if i <? 0 then None else nth_error xs (Z.to_nat i));
    [apply tracks_ret | apply tracks_panic].
Qed.

Lemma tracks_when b (m : M St unit) : tracks m -> tracks (when b m).
Proof. intros H. destruct b; [assumption | apply tracks_ret]. Qed.

Lemma tracks_if {A} (b : bool) (m1 m2 : M St A) :
  tracks m1 -> tracks m2 -> tracks (if b then m1 else m2).
Proof. now destruct b. Qed.

Lemma tracks_forRangeFrom {A} (body : Z -> A -> M St unit) :
  (forall i x, tracks (body i x)) ->
  forall l i, tracks (forRangeFrom i l body).
Proof.
  intros Hb. induction l as [|x l IH]; intros i; cbn [forRangeFrom].
  - apply tracks_ret.
  - apply tracks_bind; [apply Hb | intros _; apply IH].
Qed.

Lemma tracks_forRange {A} (body : Z -> A -> M St unit) l :
  (forall i x, tracks (body i x)) -> tracks (forRange l body).
Proof. intros Hb. now apply tracks_forRangeFrom. Qed.

Lemma tracks_forFromM {S} (body : Z -> S -> M St S) :
  (forall i s, tracks (body i s)) ->
  forall n i s, tracks (forFromM n i body s).
Proof.
  intros Hb. induction n as [|n IH]; intros i s; cbn [forFromM].
  - apply tracks_ret.
  - apply tracks_bind; [apply Hb | intros s'; apply IH].
Qed.

Lemma tracks_forUpToM {S} (body : Z -> S -> M St S) hi s :
  (forall i s, tracks (body i s)) -> tracks (forUpToM hi body s).
Proof. intros Hb. now apply tracks_forFromM. Qed.

Lemma tracks_timeNow : tracks (timeNow (St:=St) tick).
Proof. apply tracks_same. now intros w. Qed.

Lemma tracks_call {A} (op : St -> Res (A * St)) ev : tracks (call op ev).
Proof.
  intros w. unfold call. destruct (op (w_store w)) as [[a s]|msg].
  - now exists [ev a].
  - exists []. cbn [final tagged map]. now rewrite app_nil_r.
Qed.

Lemma tracks_removeDbfiles dbfile : tracks (removeDbfiles (St:=St) dbfile).
Proof. intros w. now exists [EvRemove dbfile]. Qed.

Lemma tracks_dbsize dbfile : tracks (dbsize (St:=St) dbfile).
Proof. apply tracks_same. now intros w. Qed.

End Tracks.

(** Goals [tracks m] for [m] written with the operations above. *)
Ltac tracks_auto :=
  repeat first
    [ apply tracks_ret | apply tracks_logPrint | apply tracks_logFatal
    | apply tracks_panic | apply tracks_emit | apply tracks_MustBeEqual
    | apply tracks_MustBe | apply tracks_Must | apply tracks_sliceM
    | apply tracks_indexM | apply tracks_timeNow | apply tracks_call
    | apply tracks_removeDbfiles | apply tracks_dbsize
    | apply tracks_when | apply tracks_if
    | apply tracks_forRange; intros ? ?
    | apply tracks_forUpToM; intros ? ?
    | apply tracks_bind; [| intros ?]
    | progress unfold millisSince, makeDb, Exec, InsertUsers, InsertArticles,
        InsertComments, FindUsers, FindUsersArticlesComments, Close,
        initSchema, validateSimple, validateMany, validateLarge,
        validateConcurrent, validateComplexUsers, validateComplexArticles,
        validateComplexComments ].

Section TracksScenarios.

Context {conn St : Type} {DB : Db conn St}.
Variable tick : nat -> Z.

Lemma tracks_seedPhase nusers dbfile :
  tracks (seedPhase (St:=St) nusers dbfile).
Proof. unfold seedPhase. cbv zeta. tracks_auto. Qed.

Lemma tracks_readerStep nusers dbfile pc users :
  tracks (readerStep (St:=St) nusers dbfile pc users).
Proof. destruct pc; cbn [readerStep]; tracks_auto. Qed.

End TracksScenarios.


(* ================================================================== *)
(** * The fan-out machine                                              *)
(* ================================================================== *)

Lemma set_nth_length {A} (x : A) : forall l k,
  List.length (set_nth k x l) = List.length l.
Proof.
  induction l as [|y l IH]; intros [|k]; cbn [set_nth List.length]; auto.
Qed.

Lemma nth_error_set_nth {A} (x : A) : forall l k j y,
  nth_error l k = Some y ->
  nth_error (set_nth k x l) j = if Nat.eqb j k then Some x else nth_error l j.
Proof.
  induction l as [|z l IH]; intros [|k] j y H; cbn [nth_error] in H;
    try discriminate.
  - destruct j; reflexivity.
  - destruct j as [|j]; cbn [set_nth nth_error Nat.eqb]; [reflexivity|].
    now apply IH with (y := y).
Qed.

Lemma filter_set_nth_len {A} (f : A -> bool) (x : A) : forall l k y,
  nth_error l k = Some y ->
  len (filter f (set_nth k x l)) =
  len (filter f l) - (if f y then 1 else 0) + (if f x then 1 else 0).
Proof.
  unfold len.
  induction l as [|z l IH]; intros [|k] y H; cbn [nth_error] in H;
    try discriminate.
  - injection H as ->. cbn [set_nth filter].
    destruct (f y), (f x); cbn [List.length]; lia.
  - cbn [set_nth filter]. specialize (IH k y H).
    destruct (f z); cbn [List.length]; lia.
Qed.

Lemma proj_app g l1 l2 : proj g (l1 ++ l2) = proj g l1 ++ proj g l2.
Proof. unfold proj. now rewrite filter_app, map_app. Qed.

Lemma proj_tagged_same g evs : proj g (tagged g evs) = evs.
Proof.
  unfold proj, tagged. induction evs as [|e evs IH]; [reflexivity|].
  cbn [map filter fst]. rewrite Nat.eqb_refl. cbn [map snd]. now rewrite IH.
Qed.

Lemma proj_tagged_other g g' evs : g' <> g -> proj g (tagged g' evs) = [].
Proof.
  intros Hne. unfold proj, tagged. induction evs as [|e evs IH]; [reflexivity|].
  cbn [map filter fst]. destruct (Nat.eqb_spec g' g); [contradiction|]. exact IH.
Qed.

Lemma proj_none g l :
  Forall (fun e => fst e <> g) l -> proj g l = [].
Proof.
  unfold proj. induction 1 as [|e l He _ IH]; [reflexivity|].
  cbn [filter]. destruct (Nat.eqb_spec (fst e) g); [contradiction|]. exact IH.
Qed.

Lemma Forall_tagged (P : nat * Event -> Prop) g evs :
  (forall e, P (g, e)) -> Forall P (tagged g evs).
Proof.
  intros H. unfold tagged. apply Forall_forall. intros x Hx.
  apply in_map_iff in Hx. destruct Hx as (e & <- & _). apply H.
Qed.

Section Machine.

Context {conn St : Type} {DB : Db conn St}.

Lemma readerStep_Ok nusers dbfile pc users (w w' : World St) pc' users' :
  readerStep nusers dbfile pc users w = Ok (pc', users') w' ->
  exists evs s,
    w' = mkWorld s (w_cur w) (w_clock w) (w_prefix w) (w_out w)
           (w_trace w ++ tagged (w_cur w) evs) /\
    isFinished pc' = match pc with
                     | R_wgdone | R_finished => true
                     | _ => false
                     end /\
    forall old, readerAt nusers dbfile pc old ->
                readerAt nusers dbfile pc' (old ++ evs).
Proof.
  intros H. destruct pc; cbn [readerStep] in H; run_inv H; checks;
    repeat match goal with
      | E : (_, _) = (_, _) |- _ => injection E as ? ?; subst
      end;
    match goal with
    | |- exists _ _, add_event ?e2 (add_event ?e1 (set_store ?s _)) = _ /\ _ =>
        exists [e1; e2], s
    | |- exists _ _, add_event ?e (set_store ?s _) = _ /\ _ => exists [e], s
    | |- exists _ _, add_event ?e ?w = _ /\ _ => exists [e], (w_store w)
    | |- exists _ _, ?w = _ /\ _ => exists [], (w_store w)
    end;
    (split; [unfold add_event, set_store; world_simpl; lists;
             try rewrite app_nil_r;
             first [reflexivity | destruct w; reflexivity]|]);
    (split; [reflexivity|]);
    intros old (r & v1 & v2 & -> & Hold);
    cbn [firstn readerEvents app].
  - exists r, v1, v2. now split.
  - exists r, v1, v2. now split.
  - eexists _, v1, v2. split; [reflexivity | exact I].
  - eexists r, _, v2. split; [reflexivity | reflexivity].
  - destruct Hold. eexists r, v1, _. split; [reflexivity | now split].
  - exists r, v1, v2. now split.
  - exists r, v1, v2. now split.
  - exists r, v1, v2. now split.
Qed.

Variables (nusers ngoroutines : Z) (dbfile : string) (g0 : nat).
Variable w0 : World St.

Lemma Inv_init users :
  Inv (conn:=conn) nusers ngoroutines dbfile g0 w0 (mkConf (M_spawn 0) [] users 0 w0 None).
Proof.
  unfold Inv. cbn [c_main c_readers c_users c_wg c_world c_fatal].
  split; [|split; [|split]].
  - exists []. rewrite app_nil_r. split; [reflexivity|]. split; [constructor|].
    intros _ [|k] pc; discriminate.
  - unfold len. cbn [List.length]. lia.
  - reflexivity.
  - now intros _.
Qed.

Lemma Inv_mainStep c : Inv (conn:=conn) nusers ngoroutines dbfile g0 w0 c -> Inv (conn:=conn) nusers ngoroutines dbfile g0 w0 (mainStep ngoroutines c).
Proof.
  intros (Htr & Hmain & Hwg & Hw). unfold mainStep.
  destruct (c_main c) as [i| |] eqn:Em.
  - destruct Hmain as [Hlen Hi]. destruct (Z.ltb_spec i ngoroutines).
    + unfold Inv. cbn [c_main c_readers c_users c_wg c_world c_fatal].
      split; [|split; [|split]].
      * destruct Htr as (evs & E & Hb & Hr). exists evs.
        split; [assumption|]. split.
        -- eapply Forall_impl; [|exact Hb]. cbn beta. intros e He.
           rewrite length_app. cbn [List.length]. lia.
        -- intros Hf k pc Hk.
           destruct (Nat.lt_ge_cases k (List.length (c_readers c))) as [L|G].
           ++ rewrite nth_error_app1 in Hk by assumption. now apply Hr.
           ++ rewrite nth_error_app2 in Hk by assumption.
              destruct (k - List.length (c_readers c))%nat as [|d] eqn:Ed;
                [|destruct d; discriminate].
              cbn [nth_error] in Hk. injection Hk as <-.
              rewrite proj_none.
              ** exists [], [], []. now split.
              ** eapply Forall_impl; [|exact Hb]. cbn beta. intros e He. lia.
      * unfold len in *. rewrite length_app. cbn [List.length]. lia.
      * unfold unfinished, len in *. rewrite filter_app, length_app.
        cbn [filter isFinished negb List.length]. lia.
      * assumption.
    + unfold Inv. cbn [c_main c_readers c_users c_wg c_world c_fatal].
      split; [assumption|]. split; [|split; assumption].
      unfold len in *. lia.
  - destruct (Z.eqb_spec (c_wg c) 0).
    + unfold Inv. cbn [c_main c_readers c_users c_wg c_world c_fatal].
      split; [assumption|]. split; [|split; assumption].
      split; [assumption | congruence].
    + unfold Inv. rewrite Em.
      split; [exact Htr | split; [exact Hmain | split; assumption]].
  - unfold Inv. rewrite Em.
    split; [exact Htr | split; [exact Hmain | split; assumption]].
Qed.

Lemma Inv_step pick c :
  Inv (conn:=conn) nusers ngoroutines dbfile g0 w0 c -> Inv (conn:=conn) nusers ngoroutines dbfile g0 w0 (step nusers ngoroutines dbfile g0 pick c).
Proof.
  intros HI. unfold step. destruct (c_fatal c) eqn:Ef; [assumption|].
  destruct pick as [|k]; [now apply Inv_mainStep|].
  destruct (nth_error (c_readers c) k) as [pc|] eqn:Ek; [|assumption].
  pose proof (tracks_readerStep nusers dbfile pc (c_users c)
                (set_cur (g0 + Datatypes.S k) (c_world c))) as (tev & Ht & _).
  assert (Hk : (k < List.length (c_readers c))%nat)
    by (apply nth_error_Some; congruence).
  destruct HI as ((evs & E & Hb & Hr) & Hmain & Hwg & Hw).
  destruct (readerStep nusers dbfile pc (c_users c)
              (set_cur (g0 + Datatypes.S k) (c_world c)))
    as [[pc' users'] w'|msg w'] eqn:Es.
  - apply readerStep_Ok in Es. destruct Es as (nev & s & -> & Hfin & Hat).
    world_simpl.
    unfold Inv. cbn [c_main c_readers c_users c_wg c_world c_fatal].
    world_simpl.
    assert (Hun : unfinished (set_nth k pc' (c_readers c)) =
                  match pc with
                  | R_wgdone => unfinished (c_readers c) - 1
                  | _ => unfinished (c_readers c)
                  end).
    { unfold unfinished. rewrite (filter_set_nth_len _ pc' _ _ Ek).
      rewrite Hfin. destruct pc; cbn [isFinished negb]; lia. }
    split; [|split; [|split]].
    + exists (evs ++ tagged (g0 + Datatypes.S k) nev).
      split; [rewrite E; now rewrite app_assoc|]. split.
      * rewrite set_nth_length. apply Forall_app. split; [assumption|].
        apply Forall_tagged. intros e. cbn [fst]. lia.
      * intros _ j pcj Hj. rewrite nth_error_set_nth with (y := pc) in Hj by exact Ek.
        rewrite proj_app. destruct (Nat.eqb_spec j k) as [->|Hne].
        -- injection Hj as <-. rewrite proj_tagged_same.
           apply Hat. now apply Hr.
        -- rewrite proj_tagged_other by lia. rewrite app_nil_r.
           now apply Hr.
    + unfold len in *. rewrite set_nth_length.
      destruct (c_main c); try assumption.
      destruct Hmain as [Hl Hu]. split; [assumption|].
      rewrite Hun. destruct pc; try assumption.
      (* a reader about to call wg.Done() is not finished *)
      exfalso. unfold unfinished, len in Hu.
      assert (In R_wgdone (filter (fun pc => negb (isFinished pc))
                                  (c_readers c))).
      { apply filter_In. split; [|reflexivity].
        eapply nth_error_In. exact Ek. }
      destruct (filter (fun pc => negb (isFinished pc)) (c_readers c));
        [contradiction | cbn [List.length] in Hu; lia].
    + rewrite Hun, Hwg. now destruct pc.
    + intros _. now apply Hw.
  - cbn [final] in Ht. world_simpl.
    unfold Inv. cbn [c_main c_readers c_users c_wg c_world c_fatal].
    split; [|split; [|split]]; try assumption.
    + exists (evs ++ tagged (g0 + Datatypes.S k) tev).
      split; [rewrite Ht, E; now rewrite app_assoc|]. split.
      * apply Forall_app. split; [assumption|].
        apply Forall_tagged. intros e. cbn [fst]. lia.
      * discriminate.
    + discriminate.
Qed.

Lemma Inv_exec sched : forall c,
  Inv (conn:=conn) nusers ngoroutines dbfile g0 w0 c -> Inv (conn:=conn) nusers ngoroutines dbfile g0 w0 (exec nusers ngoroutines dbfile g0 sched c).
Proof.
  unfold exec. induction sched as [|p sched IH]; intros c HI; cbn [fold_left].
  - assumption.
  - apply IH. now apply Inv_step.
Qed.

End Machine.

Section FanOut.

Context {conn St : Type} {DB : Db conn St}.
Variable tick : nat -> Z.

Lemma unfinished_0 (l : list (@ReaderPc conn)) :
  unfinished l = 0 ->
  forall k pc, nth_error l k = Some pc -> pc = R_finished.
Proof.
  unfold unfinished, len. intros H k pc Hk.
  destruct (isFinished pc) eqn:Ef; [now destruct pc|].
  assert (Hin : In pc (filter (fun pc => negb (isFinished pc)) l)).
  { apply filter_In. split; [eapply nth_error_In; exact Hk|].
    now rewrite Ef. }
  destruct (filter (fun pc => negb (isFinished pc)) l);
    [contradiction | cbn [List.length] in H; lia].
Qed.

Lemma fanOut_Ok nusers ngoroutines dbfile sched users (w w' : World St) :
  fanOut nusers ngoroutines dbfile sched users w = Ok tt w' ->
  exists evs s,
    w' = mkWorld s (w_cur w) (w_clock w) (w_prefix w) (w_out w)
           (w_trace w ++ evs) /\
    Forall (fun e => (w_cur w < fst e <= w_cur w + Z.to_nat ngoroutines)%nat)
           evs /\
    forall k, (k < Z.to_nat ngoroutines)%nat ->
      exists r v1 v2,
        proj (w_cur w + Datatypes.S k) evs = readerEvents dbfile r v1 v2 /\
        len v1 = nusers /\
        allAt (userOk 2023 2023 "user") v2.
Proof.
  unfold fanOut. cbv zeta.
  pose proof (@Inv_exec conn St DB nusers ngoroutines dbfile (w_cur w) w
                (sched ++ completion (Z.to_nat ngoroutines)) _
                (@Inv_init conn St nusers ngoroutines dbfile (w_cur w) w
                   users)) as HI.
  destruct (exec nusers ngoroutines dbfile (w_cur w)
              (sched ++ completion (Z.to_nat ngoroutines))
              (mkConf (M_spawn 0) [] users 0 w None))
    as [mn readers us wg wc ft].
  unfold Inv in HI. cbn [c_main c_readers c_users c_wg c_world c_fatal] in *.
  destruct ft; [discriminate|]. destruct mn; try discriminate.
  intros E. injection E as <-.
  destruct HI as ((evs & Et & Hb & Hr) & (Hlen & Hun) & _ & Hw).
  destruct (Hw eq_refl) as (Ho & Hc & Hp).
  assert (Hn : List.length readers = Z.to_nat ngoroutines)
    by (unfold len in Hlen; lia).
  exists evs, (w_store wc). split; [|split].
  - destruct wc. unfold set_cur. world_simpl. now subst.
  - now rewrite <- Hn.
  - intros k Hk.
    destruct (nth_error readers k) as [pc|] eqn:Ek;
      [|apply nth_error_None in Ek; lia].
    pose proof (unfinished_0 _ Hun _ Ek) as ->.
    destruct (Hr eq_refl _ _ Ek) as (r & v1 & v2 & Ep & Hl & Hv).
    now exists r, v1, v2.
Qed.

(** However the fan-out phase ends, it has only added events of readers
    to the trace. *)
Lemma fanOut_trace nusers ngoroutines dbfile sched users (w : World St) :
  exists evs,
    w_trace (final (fanOut nusers ngoroutines dbfile sched users w)) =
    w_trace w ++ evs /\
    Forall (fun e => (w_cur w < fst e)%nat) evs.
Proof.
  unfold fanOut. cbv zeta.
  pose proof (@Inv_exec conn St DB nusers ngoroutines dbfile (w_cur w) w
                (sched ++ completion (Z.to_nat ngoroutines)) _
                (@Inv_init conn St nusers ngoroutines dbfile (w_cur w) w
                   users)) as HI.
  destruct (exec nusers ngoroutines dbfile (w_cur w)
              (sched ++ completion (Z.to_nat ngoroutines))
              (mkConf (M_spawn 0) [] users 0 w None))
    as [mn readers us wg wc ft].
  unfold Inv in HI. cbn [c_main c_readers c_users c_wg c_world c_fatal] in *.
  destruct HI as ((evs & Et & Hb & _) & _).
  exists evs. split.
  - destruct ft; [exact Et|]. destruct mn; exact Et.
  - eapply Forall_impl; [|exact Hb]. cbn beta. intros e He. lia.
Qed.

Lemma benchConcurrentWith_Ok nusers dbfile verbose ngoroutines sched
  (w w' : World St) :
  benchConcurrentWith tick nusers dbfile verbose ngoroutines sched w
  = Ok tt w' ->
  exists evs size,
    w_trace w' = w_trace w ++ tagged (w_cur w)
      [EvRemove dbfile; EvOpen dbfile; EvExec schemaSql;
       EvInsertUsers insertUserSql (secondUsers nusers); EvClose] ++ evs /\
    Forall (fun e => (w_cur w < fst e <= w_cur w + Z.to_nat ngoroutines)%nat)
           evs /\
    (forall k, (k < Z.to_nat ngoroutines)%nat ->
      exists r v1 v2,
        proj (w_cur w + Datatypes.S k) evs = readerEvents dbfile r v1 v2 /\
        len v1 = nusers /\
        allAt (userOk 2023 2023 "user") v2) /\
    let c := w_clock w in
    let q := Z.quot (tick (1 + c)%nat - tick c) time.Millisecond in
    w_out w' = w_out w ++ logged (w_prefix w)
      ((if verbose then ["  query took " +++ fmt.d q +++ " ms"] else [])
       ++ [header3 ("concurrent/N=" +++ fmt.d ngoroutines) "query" "dbsize";
           data3 ("concurrent/N=" +++ fmt.d ngoroutines) q size]) /\
    size = fs_size dbfile (w_store w').
Proof.
  intros H. unfold benchConcurrentWith, seedPhase in H. cbv zeta in H.
  run_inv H;
    match goal with
    | H : fanOut _ _ _ _ _ _ = Ok _ _ |- _ =>
        apply fanOut_Ok in H; destruct H as (evs & s' & -> & Hb & Hr)
    end;
    world_simpl;
    exists evs; eexists;
    (split; [lists; reflexivity|]);
    (split; [assumption|]);
    (split; [assumption|]);
    cbv zeta; (split; [lists; reflexivity | reflexivity]).
Qed.

End FanOut.


Unset Implicit Arguments.

(* ================================================================== *)
(** * Formatting                                                       *)
(* ================================================================== *)

Lemma length_append (a b : string) :
  String.length (a +++ b) = (String.length a + String.length b)%nat.
Proof.
  induction a as [|c a IH]; cbn [String.append String.length];
    [reflexivity | now rewrite IH].
Qed.

Lemma length_repeatN1 (c : ascii) n :
  String.length (strings.repeatN (String c "") n) = n.
Proof.
  induction n as [|n IH]; cbn [strings.repeatN String.append String.length];
    [reflexivity | now rewrite IH].
Qed.

Lemma length_fmt_s width x :
  String.length (fmt.s width x) = Nat.max width (String.length x).
Proof.
  unfold fmt.s, fmt.padding. rewrite length_append.
  change " " with (String " "%char ""). rewrite length_repeatN1. lia.
Qed.

Lemma length_header4 label c1 c2 c3 :
  String.length (header4 label c1 c2 c3) =
  (Nat.max 20 (String.length label) + 1 + Nat.max 12 (String.length c1) + 1
   + Nat.max 12 (String.length c2) + 1 + Nat.max 12 (String.length c3))%nat.
Proof.
  unfold header4. rewrite !length_append, !length_fmt_s.
  cbn [String.length]. lia.
Qed.

Lemma length_header3 label c1 c2 :
  String.length (header3 label c1 c2) =
  (Nat.max 20 (String.length label) + 1 + Nat.max 12 (String.length c1) + 1
   + Nat.max 12 (String.length c2))%nat.
Proof.
  unfold header3. rewrite !length_append, !length_fmt_s.
  cbn [String.length]. lia.
Qed.

Lemma length_data4 label v1 v2 v3 :
  String.length (data4 label v1 v2 v3) =
  (Nat.max 20 (String.length label) + 1
   + Nat.max 12 (String.length (fmt.d v1)) + 1
   + Nat.max 12 (String.length (fmt.d v2)) + 1
   + Nat.max 12 (String.length (fmt.d v3)))%nat.
Proof.
  unfold data4, fmt.dw. rewrite !length_append, !length_fmt_s.
  cbn [String.length]. lia.
Qed.

Lemma length_data3 label v1 v2 :
  String.length (data3 label v1 v2) =
  (Nat.max 20 (String.length label) + 1
   + Nat.max 12 (String.length (fmt.d v1)) + 1
   + Nat.max 12 (String.length (fmt.d v2)))%nat.
Proof.
  unfold data3, fmt.dw. rewrite !length_append, !length_fmt_s.
  cbn [String.length]. lia.
Qed.

(** A number below [10^k] has at most [k] decimal digits. *)
Lemma length_digits fuel : forall n acc k,
  (1 <= k)%nat -> 0 <= n < 10 ^ Z.of_nat k ->
  (String.length (fmt.digits fuel n acc) <= k + String.length acc)%nat.
Proof.
  induction fuel as [|fuel IH]; intros n acc k Hk Hn; cbn [fmt.digits].
  - lia.
  - cbv zeta. destruct (Z.ltb_spec n 10) as [L|G].
    + cbn [String.length]. lia.
    + destruct k as [|[|k]]; [lia | change (10 ^ Z.of_nat 1) with 10 in Hn; lia |].
      specialize (IH (n / 10) (String (fmt.digit (n mod 10)) acc)
                     (Datatypes.S k)).
      cbn [String.length] in IH.
      assert (0 <= n / 10 < 10 ^ Z.of_nat (Datatypes.S k)).
      { split; [apply Z.div_pos; lia|].
        apply Z.div_lt_upper_bound; [lia|].
        replace (Z.of_nat (Datatypes.S (Datatypes.S k)))
          with (Z.succ (Z.of_nat (Datatypes.S k))) in Hn by lia.
        rewrite Z.pow_succ_r in Hn by lia. lia. }
      specialize (IH ltac:(lia) H). lia.
Qed.

Lemma length_utoa n k :
  (1 <= k)%nat -> 0 <= n < 10 ^ Z.of_nat k ->
  (String.length (fmt.utoa n) <= k)%nat.
Proof.
  intros Hk Hn. unfold fmt.utoa.
  pose proof (length_digits (Datatypes.S (Z.to_nat (Z.log2 n))) n "" k Hk Hn) as H.
  cbn [String.length] in H. lia.
Qed.

(** [%08d] of a positive number below ten millions starts with a zero. *)
Lemma d0_leading_zero n :
  0 <= n < 10000000 ->
  exists rest, fmt.d0 8 n = String "0"%char rest.
Proof.
  intros Hn. unfold fmt.d0. destruct (Z.ltb_spec n 0) as [L|G]; [lia|].
  pose proof (length_utoa n 7 ltac:(lia)
                ltac:(change (10 ^ Z.of_nat 7) with 10000000; lia)) as Hlen.
  unfold fmt.padding.
  destruct (8 - String.length (fmt.utoa n))%nat as [|p] eqn:Ep; [lia|].
  cbn [strings.repeatN String.append]. eexists. reflexivity.
Qed.

Lemma minuteUser_prefix i :
  0 <= i < 9999999 -> prefix "user0" (User_Email (minuteUser i)) = true.
Proof.
  intros Hi. cbn [minuteUser User_Email].
  destruct (d0_leading_zero (i + 1) ltac:(lia)) as (rest & ->).
  cbn [String.append prefix]. 
  repeat (rewrite Ascii.eqb_refl || cbn [prefix]).
  now destruct (rest +++ "@example.com").
Qed.

Lemma Repeat_prefix nsize :
  0 < nsize -> prefix "a" (strings.Repeat "a" nsize) = true.
Proof.
  intros H. unfold strings.Repeat.
  destruct (Z.to_nat nsize) as [|n] eqn:En; [lia|].
  cbn [strings.repeatN String.append prefix].
  now destruct (strings.repeatN "a" n).
Qed.

(* ================================================================== *)
(** * Calendar                                                         *)
(* ================================================================== *)

(** Day numbers: 2023-10-01 is day 19631, 2023-12-31 day 19722 and
    2025-12-31 day 20453. *)
Lemma yearOfDay_2023 d : 19631 <= d <= 19722 -> time.yearOfDay d = 2023.
Proof.
  intros Hd.
  assert (H : forallb (fun k => time.yearOfDay (19631 + k) =? 2023) (zseq 92)
              = true) by (vm_compute; reflexivity).
  rewrite forallb_forall in H.
  specialize (H (d - 19631)). rewrite Z.eqb_eq in H.
  replace (19631 + (d - 19631)) with d in H by lia.
  apply H. apply in_zseq. lia.
Qed.

Lemma yearOfDay_2023_2025 d :
  19631 <= d <= 20453 -> 2023 <= time.yearOfDay d <= 2025.
Proof.
  intros Hd.
  assert (H : forallb (fun k => (2023 <=? time.yearOfDay (19631 + k))
                                && (time.yearOfDay (19631 + k) <=? 2025))
                      (zseq 823)
              = true) by (vm_compute; reflexivity).
  rewrite forallb_forall in H.
  specialize (H (d - 19631)).
  replace (19631 + (d - 19631)) with d in H by lia.
  rewrite andb_true_iff, !Z.leb_le in H.
  apply H. apply in_zseq. lia.
Qed.

Lemma base_eq : base = 19631 * time.nsPerDay + 36000 * time.Second.
Proof. vm_compute. reflexivity. Qed.

Lemma scale_small i unit :
  - 2 ^ 63 <= i * unit < 2 ^ 63 -> time.scale i unit = i * unit.
Proof.
  intros H. unfold time.scale, time.wrap64.
  rewrite Z.mod_small by lia. lia.
Qed.

(** The year of an instant [ns] nanoseconds after [base]. *)
Lemma Year_after_base ns :
  0 <= ns ->
  time.Year (time.Add base ns) =
  time.yearOfDay (19631 + (36000 * time.Second + ns) / time.nsPerDay).
Proof.
  intros H. unfold time.Year, time.Add. rewrite base_eq.
  f_equal.
  replace (19631 * time.nsPerDay + 36000 * time.Second + ns)
    with ((36000 * time.Second + ns) + 19631 * time.nsPerDay) by lia.
  rewrite Z.div_add by (vm_compute; discriminate). lia.
Qed.

Lemma Year_minutes i :
  0 <= i < 1000000 ->
  2023 <= time.Year (time.Add base (time.scale i time.Minute)) <= 2025.
Proof.
  intros Hi. rewrite scale_small.
  2:{ change time.Minute with 60000000000. lia. }
  rewrite Year_after_base by (change time.Minute with 60000000000; lia).
  apply yearOfDay_2023_2025.
  change time.Minute with 60000000000.
  change time.Second with 1000000000.
  change time.nsPerDay with 86400000000000.
  pose proof (Z.div_le_lower_bound (36000 * 1000000000 + i * 60000000000)
                86400000000000 0 ltac:(lia) ltac:(lia)).
  pose proof (Z.div_lt_upper_bound (36000 * 1000000000 + i * 60000000000)
                86400000000000 696 ltac:(lia) ltac:(lia)).
  lia.
Qed.

Lemma Year_minutes_2023 i :
  0 <= i < 131880 ->
  time.Year (time.Add base (time.scale i time.Minute)) = 2023.
Proof.
  intros Hi. rewrite scale_small.
  2:{ change time.Minute with 60000000000. lia. }
  rewrite Year_after_base by (change time.Minute with 60000000000; lia).
  apply yearOfDay_2023.
  change time.Minute with 60000000000.
  change time.Second with 1000000000.
  change time.nsPerDay with 86400000000000.
  pose proof (Z.div_le_lower_bound (36000 * 1000000000 + i * 60000000000)
                86400000000000 0 ltac:(lia) ltac:(lia)).
  pose proof (Z.div_lt_upper_bound (36000 * 1000000000 + i * 60000000000)
                86400000000000 92 ltac:(lia) ltac:(lia)).
  lia.
Qed.

Lemma Year_seconds_2023 i :
  0 <= i < 7912800 ->
  time.Year (time.Add base (time.scale i time.Second)) = 2023.
Proof.
  intros Hi. rewrite scale_small.
  2:{ change time.Second with 1000000000. lia. }
  rewrite Year_after_base by (change time.Second with 1000000000; lia).
  apply yearOfDay_2023.
  change time.Second with 1000000000.
  change time.nsPerDay with 86400000000000.
  pose proof (Z.div_le_lower_bound (36000 * 1000000000 + i * 1000000000)
                86400000000000 0 ltac:(lia) ltac:(lia)).
  pose proof (Z.div_lt_upper_bound (36000 * 1000000000 + i * 1000000000)
                86400000000000 92 ltac:(lia) ltac:(lia)).
  lia.
Qed.


(* ================================================================== *)
(** * The generated data                                               *)
(* ================================================================== *)

Lemma len_map {A B} (f : A -> B) l : len (map f l) = len l.
Proof. unfold len. now rewrite length_map. Qed.

Lemma len_minuteUsers n : len (minuteUsers n) = Z.max 0 n.
Proof. now rewrite minuteUsers_eq, len_map, zseq_length. Qed.

Lemma len_largeUsers n nsize : len (largeUsers n nsize) = Z.max 0 n.
Proof. now rewrite largeUsers_eq, len_map, zseq_length. Qed.

Lemma len_secondUsers n : len (secondUsers n) = Z.max 0 n.
Proof. now rewrite secondUsers_eq, len_map, zseq_length. Qed.

Lemma zseq_app m n :
  0 <= m -> 0 <= n -> zseq (m + n) = zseq m ++ map (Z.add m) (zseq n).
Proof.
  intros Hm Hn. revert n Hn.
  apply (natlike_ind (fun n => zseq (m + n) = zseq m ++ map (Z.add m) (zseq n))).
  - rewrite Z.add_0_r. rewrite (@zseq_nonpos 0) by lia. cbn [map].
    now rewrite app_nil_r.
  - intros n Hn IH. replace (m + Z.succ n) with (m + n + 1) by lia.
    replace (Z.succ n) with (n + 1) by lia.
    rewrite !zseq_succ by lia. rewrite IH, map_app, app_assoc. reflexivity.
Qed.

(** The ids of the generated articles and comments are [1, 2, ...] in
    the order of generation. *)
Lemma complexArticles_ids nu na :
  0 <= nu -> 0 <= na ->
  map Article_Id (complexArticles nu na) = map (Z.add 1) (zseq (nu * na)).
Proof.
  intros Hnu Hna. revert nu Hnu.
  apply (natlike_ind (fun nu => map Article_Id (complexArticles nu na)
                                = map (Z.add 1) (zseq (nu * na)))).
  - reflexivity.
  - intros u Hu IH. unfold complexArticles in *.
    replace (Z.succ u) with (u + 1) by lia.
    rewrite zseq_succ, flat_map_snoc, map_app, IH by lia.
    replace ((u + 1) * na) with (u * na + na) by lia.
    rewrite zseq_app, map_app by lia. f_equal.
    rewrite !map_map. apply map_ext. intros a.
    cbn [complexArticle Article_Id]. lia.
Qed.

Lemma complexComments_ids nu na nc :
  0 <= nu -> 0 <= na -> 0 <= nc ->
  map Comment_Id (complexComments nu na nc)
  = map (Z.add 1) (zseq (nu * na * nc)).
Proof.
  intros Hnu Hna Hnc.
  assert (Hin : forall u, 0 <= u -> forall a, 0 <= a ->
    map Comment_Id
      (flat_map (fun a => map (complexComment na nc u a) (zseq nc)) (zseq a))
    = map (fun j => u * na * nc + j + 1) (zseq (a * nc))).
  { intros u Hu.
    apply (natlike_ind (fun a =>
      map Comment_Id
        (flat_map (fun a => map (complexComment na nc u a) (zseq nc)) (zseq a))
      = map (fun j => u * na * nc + j + 1) (zseq (a * nc)))).
    - reflexivity.
    - intros a Ha IH. replace (Z.succ a) with (a + 1) by lia.
      rewrite zseq_succ, flat_map_snoc, map_app, IH by lia.
      replace ((a + 1) * nc) with (a * nc + nc) by lia.
      rewrite zseq_app, map_app by nia. f_equal.
      rewrite !map_map. apply map_ext. intros c.
      cbn [complexComment Comment_Id]. lia. }
  revert nu Hnu.
  apply (natlike_ind (fun nu => map Comment_Id (complexComments nu na nc)
                                = map (Z.add 1) (zseq (nu * na * nc)))).
  - reflexivity.
  - intros u Hu IH. unfold complexComments in *.
    replace (Z.succ u) with (u + 1) by lia.
    rewrite zseq_succ, flat_map_snoc, map_app, IH by lia.
    replace ((u + 1) * na * nc) with (u * na * nc + na * nc) by lia.
    rewrite zseq_app, map_app by nia. f_equal.
    rewrite Hin by lia. rewrite !map_map. apply map_ext. intros j. lia.
Qed.

Lemma Forall_flat_map_intro {A B} (P : B -> Prop) (f : A -> list B) l :
  (forall x, In x l -> Forall P (f x)) -> Forall P (flat_map f l).
Proof.
  intros H. apply Forall_forall. intros y Hy.
  apply in_flat_map in Hy. destruct Hy as (x & Hx & Hy).
  specialize (H x Hx). rewrite Forall_forall in H. now apply H.
Qed.

Lemma Forall_map_intro {A B} (P : B -> Prop) (f : A -> B) l :
  (forall x, In x l -> P (f x)) -> Forall P (map f l).
Proof.
  intros H. apply Forall_forall. intros y Hy.
  apply in_map_iff in Hy. destruct Hy as (x & <- & Hx). now apply H.
Qed.

(** The ids of the generated rows. *)
Lemma generated_ids (nu na nc : Z) :
  0 <= nu -> 0 <= na -> 0 <= nc ->
  map User_Id (g_users (genComplex nu na nc)) = map (Z.add 1) (zseq nu) /\
  map Article_Id (g_articles (genComplex nu na nc))
  = map (Z.add 1) (zseq (nu * na)) /\
  map Comment_Id (g_comments (genComplex nu na nc))
  = map (Z.add 1) (zseq (nu * na * nc)).
Proof.
  intros Hnu Hna Hnc. rewrite genComplex_eq by assumption.
  cbn [g_users g_articles g_comments].
  split; [|split].
  - rewrite map_map. apply map_ext. intros u. cbn [complexUser User_Id]. lia.
  - now apply complexArticles_ids.
  - now apply complexComments_ids.
Qed.

Lemma len_genComplex nu na nc :
  0 <= nu -> 0 <= na -> 0 <= nc ->
  len (g_users (genComplex nu na nc)) = nu /\
  len (g_articles (genComplex nu na nc)) = nu * na /\
  len (g_comments (genComplex nu na nc)) = nu * na * nc.
Proof.
  intros Hnu Hna Hnc.
  destruct (generated_ids nu na nc Hnu Hna Hnc)
    as (Hu & Ha & Hc).
  split; [|split].
  - rewrite <- (len_map User_Id), Hu, len_map, zseq_length. lia.
  - rewrite <- (len_map Article_Id), Ha, len_map, zseq_length. nia.
  - rewrite <- (len_map Comment_Id), Hc, len_map, zseq_length. nia.
Qed.

(** C10. In the data [benchComplex] generates, with [nusers] users,
    [narticlesPerUser] articles per user and [ncommentsPerArticle]
    comments per article (200, 100 and 20 in the source): the ids of the
    users, articles and comments are 1, 2, ... in order; the article with
    id [k] has [UserId = (k-1) div narticlesPerUser + 1], which lies in
    [1, nusers]; the comment with id [k] has
    [ArticleId = (k-1) div ncommentsPerArticle + 1], which lies in
    [1, nusers*narticlesPerUser]; so every parent id is the id of a
    generated row, and the bounds of the validator, [UserId <= 1+nusers]
    and [ArticleId <= 1+nusers*narticlesPerUser], hold. *)
Theorem C10_generator_referential_integrity (nu na nc : Z) :
  0 <= nu -> 0 <= na -> 0 <= nc ->
  let g := genComplex nu na nc in
  map User_Id (g_users g) = map (Z.add 1) (zseq nu) /\
  map Article_Id (g_articles g) = map (Z.add 1) (zseq (nu * na)) /\
  map Comment_Id (g_comments g) = map (Z.add 1) (zseq (nu * na * nc)) /\
  Forall (fun a => Article_UserId a = (Article_Id a - 1) / na + 1 /\
                   1 <= Article_UserId a <= nu /\
                   Article_UserId a <= 1 + nu)
         (g_articles g) /\
  Forall (fun c => Comment_ArticleId c = (Comment_Id c - 1) / nc + 1 /\
                   1 <= Comment_ArticleId c <= nu * na /\
                   Comment_ArticleId c <= 1 + nu * na)
         (g_comments g).
Proof.
  intros Hnu Hna Hnc g. subst g. rewrite genComplex_eq by assumption.
  cbn [g_users g_articles g_comments].
  split; [|split; [|split; [|split]]].
  - rewrite map_map. apply map_ext. intros u. cbn [complexUser User_Id]. lia.
  - now apply complexArticles_ids.
  - now apply complexComments_ids.
  - apply Forall_flat_map_intro. intros u Hu. apply in_zseq in Hu.
    apply Forall_map_intro. intros a Ha. apply in_zseq in Ha.
    cbn [complexArticle Article_Id Article_UserId].
    replace (u * na + a + 1 - 1) with (a + u * na) by lia.
    rewrite Z.div_add by lia. rewrite Z.div_small by lia. lia.
  - apply Forall_flat_map_intro. intros u Hu. apply in_zseq in Hu.
    apply Forall_flat_map_intro. intros a Ha. apply in_zseq in Ha.
    apply Forall_map_intro. intros c Hc. apply in_zseq in Hc.
    cbn [complexComment Comment_Id Comment_ArticleId].
    replace ((u * na + a) * nc + c + 1 - 1) with (c + (u * na + a) * nc) by lia.
    rewrite Z.div_add by lia. rewrite Z.div_small by lia. nia.
Qed.

Lemma C10_generator_referential_integrity_witness :
  0 <= 2 /\ 0 <= 3 /\ 0 <= 2 /\
  map Article_UserId (g_articles (genComplex 2 3 2)) = [1; 1; 1; 2; 2; 2] /\
  Forall (fun a => Article_UserId a = (Article_Id a - 1) / 3 + 1 /\
                   1 <= Article_UserId a <= 2 /\
                   Article_UserId a <= 1 + 2)
         (g_articles (genComplex 2 3 2)).
Proof.
  split; [lia|]. split; [lia|]. split; [lia|]. split; [reflexivity|].
  apply (C10_generator_referential_integrity 2 3 2); lia.
Defined.



(* ================================================================== *)
(** * Row counts and validation (C1, C2, C3)                           *)
(* ================================================================== *)

(** C3. In the complex scenario that returns, the three sequences read
    from the flattened join have lengths exactly [nusers],
    [nusers*narticlesPerUser] and
    [nusers*narticlesPerUser*ncommentsPerArticle] (200, 20,000 and 400,000
    with the constants of the source); along the article sequence
    [UserId] never decreases, and along the comment sequence [ArticleId]
    never decreases. *)
Theorem C3_complex_lengths_and_order
  {conn St : Type} {DB : Db conn St} (tick : nat -> Z)
  (nusers narticlesPerUser ncommentsPerArticle : Z)
  (dbfile : string) (verbose : bool) (w w' : World St) :
  benchComplexWith tick nusers narticlesPerUser ncommentsPerArticle
                   dbfile verbose w = Ok tt w' ->
  exists users articles comments,
    w_trace w' = w_trace w ++ tagged (w_cur w)
      [EvRemove dbfile; EvOpen dbfile; EvExec schemaSql;
       EvInsertUsers insertUserSql
         (g_users (genComplex nusers narticlesPerUser ncommentsPerArticle));
       EvInsertArticles insertArticleSql
         (g_articles (genComplex nusers narticlesPerUser
                                 ncommentsPerArticle));
       EvInsertComments insertCommentSql
         (g_comments (genComplex nusers narticlesPerUser
                                 ncommentsPerArticle));
       EvFindUsersArticlesComments complexQuerySql users articles comments;
       EvClose] /\
    len users = nusers /\
    len articles = nusers * narticlesPerUser /\
    len comments = nusers * narticlesPerUser * ncommentsPerArticle /\
    nondecreasing Article_UserId articles /\
    nondecreasing Comment_ArticleId comments.
Proof.
  intros H. apply benchComplexWith_Ok in H.
  destruct H as (us & ars & cs & size & Htr & (L1 & L2 & L3) & _ & (N1 & N2) & _).
  exists us, ars, cs. repeat (split; [assumption|]). assumption.
Qed.

Lemma C3_complex_lengths_and_order_witness :
  benchComplexWith tick0 2 3 2 "db" false world0
  = Ok tt (final (benchComplexWith tick0 2 3 2 "db" false world0)) /\
  exists users articles comments,
    w_trace (final (benchComplexWith tick0 2 3 2 "db" false world0))
    = w_trace world0 ++ tagged (w_cur world0)
      [EvRemove "db"; EvOpen "db"; EvExec schemaSql;
       EvInsertUsers insertUserSql (g_users (genComplex 2 3 2));
       EvInsertArticles insertArticleSql (g_articles (genComplex 2 3 2));
       EvInsertComments insertCommentSql (g_comments (genComplex 2 3 2));
       EvFindUsersArticlesComments complexQuerySql users articles comments;
       EvClose] /\
    len users = 2 /\
    len articles = 2 * 3 /\
    len comments = 2 * 3 * 2 /\
    nondecreasing Article_UserId articles /\
    nondecreasing Comment_ArticleId comments.
Proof.
  split; [vm_compute; reflexivity|].
  apply (C3_complex_lengths_and_order tick0 2 3 2 "db" false world0).
  vm_compute. reflexivity.
Defined.

(* ------------------------------------------------------------------ *)













(* ------------------------------------------------------------------ *)

Lemma allAt_map_zseq {A} (P : Z -> A -> Prop) (f : Z -> A) n :
  (forall i, 0 <= i < n -> P i (f i)) -> allAt P (map f (zseq n)).
Proof.
  intros H i x Hx.
  assert (Hi : (i < Z.to_nat n)%nat).
  { assert (Hs : nth_error (map f (zseq n)) i <> None) by congruence.
    apply nth_error_Some in Hs. unfold zseq in Hs.
    now rewrite !length_map, length_seq in Hs. }
  rewrite nth_error_map, (@nth_error_zseq n i Hi) in Hx. cbn [option_map] in Hx.
  injection Hx as <-. apply H. lia.
Qed.

Lemma minuteUsers_valid n lo hi :
  n <= 1000000 ->
  (forall i, 0 <= i < n ->
     lo <= time.Year (time.Add base (time.scale i time.Minute)) <= hi) ->
  allAt (userOk lo hi "user0") (minuteUsers n).
Proof.
  intros Hn Hy. rewrite minuteUsers_eq. apply allAt_map_zseq.
  intros i Hi. unfold userOk. split; [reflexivity|]. split; [|split].
  - now apply Hy.
  - apply minuteUser_prefix. lia.
  - reflexivity.
Qed.

Lemma largeUsers_valid n nsize :
  n <= 7912800 -> 0 < nsize ->
  allAt (userOk 2023 2023 "a") (largeUsers n nsize).
Proof.
  intros Hn Hs. rewrite largeUsers_eq. apply allAt_map_zseq.
  intros i Hi. unfold userOk. split; [reflexivity|]. split; [|split].
  - cbn [largeUser User_Created]. rewrite Year_seconds_2023 by lia. lia.
  - cbn [largeUser User_Email]. now apply Repeat_prefix.
  - reflexivity.
Qed.








(* ================================================================== *)
(** * The report                                                       *)
(* ================================================================== *)

Lemma header4_line label c1 c2 c3 :
  header4 label c1 c2 c3 = line [20; 12; 12; 12]%nat [label; c1; c2; c3].
Proof. reflexivity. Qed.

Lemma data4_line label v1 v2 v3 :
  data4 label v1 v2 v3
  = line [20; 12; 12; 12]%nat [label; fmt.d v1; fmt.d v2; fmt.d v3].
Proof. reflexivity. Qed.

Lemma header3_line label c1 c2 :
  header3 label c1 c2 = line [20; 12; 12]%nat [label; c1; c2].
Proof. reflexivity. Qed.

Lemma data3_line label v1 v2 :
  data3 label v1 v2 = line [20; 12; 12]%nat [label; fmt.d v1; fmt.d v2].
Proof. reflexivity. Qed.

Lemma reportLines_width sc ins q size :
  Forall (fun l => (reportWidth sc <= String.length l)%nat)
         (reportLines sc ins q size).
Proof.
  assert (H4 : forall label a b c,
    (59 <= String.length (line [20; 12; 12; 12]%nat [label; a; b; c]))%nat).
  { intros. rewrite <- header4_line, length_header4. lia. }
  assert (H3 : forall label a b,
    (46 <= String.length (line [20; 12; 12]%nat [label; a; b]))%nat).
  { intros. rewrite <- header3_line, length_header3. lia. }
  destruct sc; cbn [reportLines reportWidth];
    unfold fourColumnReport, threeColumnReport;
    apply Forall_cons; try apply Forall_cons; try apply Forall_nil;
    first [apply H4 | apply H3].
Qed.

(** Every scenario that returns has written,
    with [verbose] off as [Run] calls it, exactly a header line and a data
    line, in columns of widths 20, 12, 12 (and 12), right-justified and
    separated by one space. [benchSimple] and [benchComplex] report four
    columns: the label, the insert duration, the query duration and the
    size of the database file in bytes. [benchMany], [benchLarge] and
    [benchConcurrent] report three: the label, the query duration and the
    size; the insert duration is not in their output. The durations are
    differences of clock readings in whole milliseconds, and the size is
    what [dbsize] returns at the end of the scenario. ([benchLarge] is
    taken with [nsize >= 0]: [strings.Repeat] panics below.) *)
Theorem report_lines
  {conn St : Type} {DB : Db conn St} (tick : nat -> Z)
  (sc : Scenario) (dbfile : string) (w w' : World St) :
  validSize sc ->
  bench tick sc dbfile false w = Ok tt w' ->
  exists size,
    w_out w' = w_out w ++
      logged (w_prefix w)
        (reportLines sc (insertMillis tick (w_clock w))
                     (queryMillis tick sc (w_clock w)) size) /\
    (exists s, size = fs_size dbfile s /\
               (s = w_store w' \/
                exists db, db_Close db s = Done (w_store w'))) /\
    Forall (fun l => (reportWidth sc <= String.length l)%nat)
           (reportLines sc (insertMillis tick (w_clock w))
                        (queryMillis tick sc (w_clock w)) size).
Proof.
  intros _ H.
  assert (G : exists size,
    w_out w' = w_out w ++
      logged (w_prefix w)
        (reportLines sc (insertMillis tick (w_clock w))
                     (queryMillis tick sc (w_clock w)) size) /\
    (exists s, size = fs_size dbfile s /\
               (s = w_store w' \/
                exists db, db_Close db s = Done (w_store w')))).
  { destruct sc as [| |nusers|nsize|ngoroutines sched]; cbn [bench] in H.
    - apply benchSimpleWith_Ok in H.
      destruct H as (res & size & _ & _ & _ & Hout & db & s & Hs & Hc).
      exists size. split; [exact Hout|]. exists s. split; [exact Hs|].
      right. now exists db.
    - apply benchComplexWith_Ok in H.
      destruct H as (us & ars & cs & size & _ & _ & _ & _ & Hout
                     & db & s & Hs & Hc).
      exists size. split; [exact Hout|]. exists s. split; [exact Hs|].
      right. now exists db.
    - apply benchMany_Ok in H.
      destruct H as (ress & size & _ & _ & _ & _ & Hout & db & s & Hs & Hc).
      exists size. split; [exact Hout|]. exists s. split; [exact Hs|].
      right. now exists db.
    - apply benchLargeWith_Ok in H.
      destruct H as (res & size & _ & _ & _ & Hout & db & s & Hs & Hc).
      exists size. split; [exact Hout|]. exists s. split; [exact Hs|].
      right. now exists db.
    - apply benchConcurrentWith_Ok in H.
      destruct H as (evs & size & _ & _ & _ & Hout & Hs).
      exists size. split; [exact Hout|]. exists (w_store w').
      split; [exact Hs|]. now left. }
  destruct G as (size & Hout & Hs). exists size.
  split; [exact Hout|]. split; [exact Hs|]. apply reportLines_width.
Qed.

(** A run with no fatal error has returned, in its final world. *)
Lemma Ok_final {St} (o : Outcome St unit) :
  status o = None -> o = Ok tt (final o).
Proof. destruct o as [[] w|msg w]; [reflexivity | discriminate]. Qed.

Lemma report_lines_witness :
  bench tick0 (ScMany 10) "db" false world0
  = Ok tt (final (bench tick0 (ScMany 10) "db" false world0)) /\
  w_out (final (bench tick0 (ScMany 10) "db" false world0))
  = [ "           many/N=10        query       dbsize";
      "           many/N=10            1        45056" ] /\
  exists size,
    w_out (final (bench tick0 (ScMany 10) "db" false world0))
    = w_out world0 ++
      logged (w_prefix world0)
        (reportLines (ScMany 10) (insertMillis tick0 (w_clock world0))
                     (queryMillis tick0 (ScMany 10) (w_clock world0)) size) /\
    (exists s, size = fs_size "db" s /\
       (s = w_store (final (bench tick0 (ScMany 10) "db" false world0)) \/
        exists db,
          db_Close db s
          = Done (w_store (final (bench tick0 (ScMany 10) "db" false
                                        world0))))) /\
    Forall (fun l => (reportWidth (ScMany 10) <= String.length l)%nat)
           (reportLines (ScMany 10) (insertMillis tick0 (w_clock world0))
                        (queryMillis tick0 (ScMany 10) (w_clock world0))
                        size).
Proof.
  split; [apply Ok_final; vm_compute; reflexivity|].
  split; [vm_compute; reflexivity|].
  apply (report_lines tick0 (ScMany 10) "db" world0 _ I).
  apply Ok_final. vm_compute. reflexivity.
Defined.

(** The report of [benchMany] is not a four-column report: with 10 users
    on the reference backend its two lines have no column for the insert
    duration, whatever the label and the numbers. *)
Lemma many_report_not_four_columns :
  ~ exists label ins q size,
      w_out (final (bench tick0 (ScMany 10) "db" false world0))
      = fourColumnReport label ins q size.
Proof.
  intros (label & ins & q & size & E).
  assert (Hout : w_out (final (bench tick0 (ScMany 10) "db" false world0))
                 = [ "           many/N=10        query       dbsize";
                     "           many/N=10            1        45056" ])
    by (vm_compute; reflexivity).
  rewrite Hout in E. unfold fourColumnReport in E.
  injection E as E _. apply (f_equal String.length) in E.
  rewrite <- header4_line, length_header4 in E.
  cbn [String.length] in E. lia.
Qed.


(* ================================================================== *)
(** * The concurrent scenario                                          *)
(* ================================================================== *)

Lemma final_bind {St A B} (m : M St A) (k : A -> M St B) (w : World St) :
  final (bind m k w)
  = match m w with
    | Ok a w1 => final (k a w1)
    | Fatal _ w1 => w1
    end.
Proof. unfold bind. now destruct (m w). Qed.

(** However the concurrent scenario ends, its trace is the events of
    the seed phase, all of the main goroutine, followed by the events of
    the readers; and if a reader has done anything at all (opening its
    connection comes first in its body), the seed phase is complete: it
    ended with the batch insert and the closing of its connection. So no
    reader opens a connection before the writer has inserted and
    closed. *)
Theorem seed_phase_precedes_readers
  {conn St : Type} {DB : Db conn St} (tick : nat -> Z)
  (nusers : Z) (dbfile : string) (verbose : bool) (ngoroutines : Z)
  (sched : list nat) (w : World St) :
  exists seed evs,
    w_trace (final (benchConcurrentWith tick nusers dbfile verbose
                                        ngoroutines sched w))
    = w_trace w ++ tagged (w_cur w) seed ++ evs /\
    Forall (fun e => (w_cur w < fst e)%nat) evs /\
    (evs = [] \/
     seed = [EvRemove dbfile; EvOpen dbfile; EvExec schemaSql;
             EvInsertUsers insertUserSql (secondUsers nusers); EvClose]).
Proof.
  unfold benchConcurrentWith. rewrite final_bind.
  destruct (seedPhase nusers dbfile w) as [users w1|msg w1] eqn:Es.
  - unfold seedPhase in Es. cbv zeta in Es. run_inv Es.
    rewrite final_bind. unfold timeNow at 1. cbv beta iota.
    rewrite final_bind.
    match goal with
    | |- context [fanOut ?a ?b ?c ?d ?e ?w0] =>
        destruct (fanOut_trace a b c d e w0) as (evs & Et & Hb);
        destruct (fanOut a b c d e w0) as [[] w2|msg w2] eqn:Ef
    end.
    + exists [EvRemove dbfile; EvOpen dbfile; EvExec schemaSql;
              EvInsertUsers insertUserSql (secondUsers nusers); EvClose], evs.
      cbn [final] in Et. world_simpl.
      split; [|split; [exact Hb | now right]].
      destruct verbose;
        cbv [bind millisSince timeNow ret when logPrint dbsize final];
        world_simpl; rewrite Et; lists; reflexivity.
    + exists [EvRemove dbfile; EvOpen dbfile; EvExec schemaSql;
              EvInsertUsers insertUserSql (secondUsers nusers); EvClose], evs.
      cbn [final] in Et. world_simpl.
      split; [|split; [exact Hb | now right]].
      rewrite Et. lists. reflexivity.
  - destruct (tracks_seedPhase nusers dbfile w) as (seed & Et & _).
    rewrite Es in Et. cbn [final] in Et.
    exists seed, []. split; [|split; [constructor | now left]].
    now rewrite app_nil_r.
Qed.




(* ================================================================== *)
(** * [Run]                                                            *)
(* ================================================================== *)



(* ================================================================== *)
(** * What the validators accept                                       *)
(* ================================================================== *)

Lemma prefix_length p : forall s,
  prefix p s = true -> (String.length p <= String.length s)%nat.
Proof.
  induction p as [|c p IH]; intros s H; [cbn [String.length]; lia|].
  destruct s as [|d s]; [discriminate|]. cbn [prefix] in H.
  destruct (Ascii.ascii_dec c d); [|discriminate].
  apply IH in H. cbn [String.length]. lia.
Qed.

Lemma prefix_slice p s :
  prefix p s = true -> strings.slice s 0 (String.length p) = Some p.
Proof.
  intros H. unfold strings.slice.
  pose proof (prefix_length p s H) as L.
  destruct (Nat.leb_spec 0 (String.length p)); [|lia].
  destruct (Nat.leb_spec (String.length p) (String.length s)); [|lia].
  cbn [andb]. rewrite Nat.sub_0_r. f_equal. now apply prefix_correct.
Qed.

Section Accept.

Context {St : Type}.

Lemma MustBeEqual_pass {A} `{Eqb A} (x y : A) (w : World St) :
  eqb x y = true -> MustBeEqual x y w = Ok tt w.
Proof. intros E. unfold MustBeEqual. now rewrite E. Qed.

Lemma MustBe_pass c (w : World St) : c = true -> MustBe c w = Ok tt w.
Proof. now intros ->. Qed.

Lemma Must_pass c msg (w : World St) : c = true -> Must c msg w = Ok tt w.
Proof. now intros ->. Qed.

Lemma sliceM_pass p s (w : World St) :
  prefix p s = true -> sliceM s 0 (String.length p) w = Ok p w.
Proof. intros H. unfold sliceM. now rewrite (prefix_slice p s H). Qed.

Lemma indexM_pass {A} (xs : list A) i x (w : World St) :
  0 <= i -> nth_error xs (Z.to_nat i) = Some x -> indexM xs i w = Ok x w.
Proof.
  intros Hi H. unfold indexM. destruct (Z.ltb_spec i 0); [lia|].
  now rewrite H.
Qed.

Lemma forRangeFrom_pass {A} (P : Z -> A -> Prop) (body : Z -> A -> M St unit) :
  (forall j x w, P j x -> body j x w = Ok tt w) ->
  forall l i w,
    (forall k x, nth_error l k = Some x -> P (i + Z.of_nat k) x) ->
    forRangeFrom i l body w = Ok tt w.
Proof.
  intros Hbody. induction l as [|y l IH]; intros i w H; cbn [forRangeFrom].
  - reflexivity.
  - unfold bind. rewrite Hbody.
    + apply IH. intros k x Hx.
      replace (i + 1 + Z.of_nat k) with (i + Z.of_nat (S k)) by lia.
      now apply H.
    + specialize (H 0%nat y eq_refl). now rewrite Z.add_0_r in H.
Qed.

Lemma forRange_iff {A} (P : Z -> A -> Prop) (body : Z -> A -> M St unit)
  l (w w' : World St) :
  (forall j x w1 w2, body j x w1 = Ok tt w2 -> w2 = w1 /\ P j x) ->
  (forall j x w, P j x -> body j x w = Ok tt w) ->
  (forRange l body w = Ok tt w' <-> w' = w /\ allAt P l).
Proof.
  intros Hs Hc. split.
  - now apply forRange_Ok.
  - intros [-> H]. unfold forRange. apply (forRangeFrom_pass P body Hc).
    intros k x Hx. now apply H.
Qed.

(** The body of the loop of a single-table validator, run on a user that
    satisfies the conditions. *)
Ltac pass_user :=
  let w := fresh "w" in
  intros j x w (Hid & Hy & Hp & Ha);
  unfold bind;
  rewrite MustBeEqual_pass by (apply Z.eqb_eq; now rewrite Hid);
  first [ rewrite Must_pass
            by (apply andb_true_intro; split; apply Z.leb_le; lia)
        | rewrite MustBeEqual_pass by (apply Z.eqb_eq; lia) ];
  match goal with
  | Hp : prefix ?p _ = true |- _ =>
      let E := fresh "E" in
      pose proof (sliceM_pass p _ w Hp) as E;
      cbn [String.length] in E; rewrite E; clear E;
      rewrite MustBeEqual_pass by apply String.eqb_refl
  end;
  apply MustBeEqual_pass; rewrite Ha; reflexivity.

Lemma validateSimple_accepts users (w : World St) :
  allAt (userOk 2023 2025 "user0") users -> validateSimple users w = Ok tt w.
Proof.
  intros H. apply (forRangeFrom_pass (userOk 2023 2025 "user0"));
    [pass_user | intros k x Hx; now apply H].
Qed.

Lemma validateMany_accepts users (w : World St) :
  allAt (userOk 2023 2023 "user0") users -> validateMany users w = Ok tt w.
Proof.
  intros H. apply (forRangeFrom_pass (userOk 2023 2023 "user0"));
    [pass_user | intros k x Hx; now apply H].
Qed.

Lemma validateLarge_accepts users (w : World St) :
  allAt (userOk 2023 2023 "a") users -> validateLarge users w = Ok tt w.
Proof.
  intros H. apply (forRangeFrom_pass (userOk 2023 2023 "a"));
    [pass_user | intros k x Hx; now apply H].
Qed.

Lemma validateConcurrent_accepts users (w : World St) :
  allAt (userOk 2023 2023 "user") users ->
  validateConcurrent users w = Ok tt w.
Proof.
  intros H. apply (forRangeFrom_pass (userOk 2023 2023 "user"));
    [pass_user | intros k x Hx; now apply H].
Qed.

(** The validating loops of the simple, many, large and concurrent
    scenarios accept exactly the sequences whose user at position [i] has
    [Id = i+1], a year in the range of the scenario, the e-mail prefix of
    the scenario and [Active = true]; they stop the process on any other
    sequence, and they change nothing. *)
Theorem user_validators_accept_exactly (users : list User) (w w' : World St) :
  (validateSimple users w = Ok tt w'
   <-> w' = w /\ allAt (userOk 2023 2025 "user0") users) /\
  (validateMany users w = Ok tt w'
   <-> w' = w /\ allAt (userOk 2023 2023 "user0") users) /\
  (validateLarge users w = Ok tt w'
   <-> w' = w /\ allAt (userOk 2023 2023 "a") users) /\
  (validateConcurrent users w = Ok tt w'
   <-> w' = w /\ allAt (userOk 2023 2023 "user") users).
Proof.
  split; [|split; [|split]]; (split; [| intros [-> H]]).
  - apply validateSimple_Ok.
  - now apply validateSimple_accepts.
  - apply validateMany_Ok.
  - now apply validateMany_accepts.
  - apply validateLarge_Ok.
  - now apply validateLarge_accepts.
  - apply validateConcurrent_Ok.
  - now apply validateConcurrent_accepts.
Qed.

End Accept.

Section AcceptComplex.

Context {St : Type}.

Lemma nondecreasing_prev {A} (key : A -> Z) (l : list A) k x :
  nondecreasing key l -> nth_error l k = Some x -> 0 < Z.of_nat k ->
  exists y, nth_error l (Z.to_nat (Z.of_nat k - 1)) = Some y /\
            key y <= key x.
Proof.
  intros Hn Hx Hk. destruct k as [|k]; [lia|].
  replace (Z.to_nat (Z.of_nat (S k) - 1)) with k by lia.
  destruct (nth_error l k) as [y|] eqn:Ey.
  - exists y. split; [reflexivity|]. now apply (Hn k).
  - apply nth_error_None in Ey.
    assert (nth_error l (S k) <> None) by congruence.
    apply nth_error_Some in H. lia.
Qed.

Lemma validateComplexUsers_accepts users (w : World St) :
  allAt complexUserOk users -> validateComplexUsers users w = Ok tt w.
Proof.
  intros H.
  apply (forRangeFrom_pass complexUserOk); [|intros k x Hx; now apply H].
  intros j x w0 (Hid & Hy & Hp & Ha). unfold bind.
  rewrite MustBeEqual_pass by (apply Z.eqb_eq; now rewrite Hid).
  rewrite MustBeEqual_pass by (apply Z.eqb_eq; now rewrite Hy).
  pose proof (sliceM_pass "user0" _ w0 Hp) as E.
  cbn [String.length] in E. rewrite E.
  rewrite MustBeEqual_pass by apply String.eqb_refl.
  apply MustBeEqual_pass. rewrite Ha. apply Bool.eqb_reflx.
Qed.

Lemma validateComplexArticles_accepts nusers articles (w : World St) :
  allAt (articleOk nusers) articles ->
  nondecreasing Article_UserId articles ->
  validateComplexArticles nusers articles w = Ok tt w.
Proof.
  intros H Hn.
  apply (forRangeFrom_pass
    (fun i x => articleOk nusers i x /\
       (0 < i -> exists y,
          nth_error articles (Z.to_nat (i - 1)) = Some y /\
          Article_UserId y <= Article_UserId x))).
  + intros j x w0 ((Hid & Hy & Hu & Ht) & Hprev). unfold bind.
    rewrite MustBeEqual_pass by (apply Z.eqb_eq; now rewrite Hid).
    rewrite MustBeEqual_pass by (apply Z.eqb_eq; now rewrite Hy).
    rewrite MustBe_pass by (rewrite Z.geb_le; lia).
    rewrite MustBe_pass by (apply Z.leb_le; lia).
    rewrite MustBeEqual_pass by (rewrite Ht; apply String.eqb_refl).
    destruct (Z.gtb_spec j 0) as [G|L]; [|reflexivity].
    destruct (Hprev G) as (y & Ey & Hle).
    rewrite (indexM_pass articles (j - 1) y w0) by (lia || exact Ey).
    apply MustBe_pass. rewrite Z.geb_le. lia.
  + intros k x Hx. rewrite Z.add_0_l. split; [now apply H|].
    intros Hk. now apply nondecreasing_prev.
Qed.

Lemma validateComplexComments_accepts nusers narticlesPerUser comments
  (w : World St) :
  allAt (commentOk nusers narticlesPerUser) comments ->
  nondecreasing Comment_ArticleId comments ->
  validateComplexComments nusers narticlesPerUser comments w = Ok tt w.
Proof.
  intros H Hn.
  apply (forRangeFrom_pass
    (fun i x => commentOk nusers narticlesPerUser i x /\
       (0 < i -> exists y,
          nth_error comments (Z.to_nat (i - 1)) = Some y /\
          Comment_ArticleId y <= Comment_ArticleId x))).
  + intros j x w0 ((Hid & Hy & Hu & Ht) & Hprev). unfold bind.
    rewrite MustBeEqual_pass by (apply Z.eqb_eq; now rewrite Hid).
    rewrite MustBeEqual_pass by (apply Z.eqb_eq; now rewrite Hy).
    rewrite MustBe_pass by (rewrite Z.geb_le; lia).
    rewrite MustBe_pass by (apply Z.leb_le; lia).
    rewrite MustBeEqual_pass by (rewrite Ht; apply String.eqb_refl).
    destruct (Z.gtb_spec j 0) as [G|L]; [|reflexivity].
    destruct (Hprev G) as (y & Ey & Hle).
    rewrite (indexM_pass comments (j - 1) y w0) by (lia || exact Ey).
    apply MustBe_pass. rewrite Z.geb_le. lia.
  + intros k x Hx. rewrite Z.add_0_l. split; [now apply H|].
    intros Hk. now apply nondecreasing_prev.
Qed.

(** The three validating loops of the complex scenario accept exactly:
    users with [Id = i+1], year 2023, the prefix [user0] and
    [Active = (i%2 == 0)]; articles with [Id = i+1], year 2023,
    [1 <= UserId <= 1+nusers], the text [article text] and a [UserId]
    that never decreases along the sequence; comments likewise, with
    [1 <= ArticleId <= 1+nusers*narticlesPerUser] and the text
    [comment text]. *)
Theorem complex_validators_accept_exactly
  (nusers narticlesPerUser : Z)
  (users : list User) (articles : list Article) (comments : list Comment)
  (w w' : World St) :
  (validateComplexUsers users w = Ok tt w'
   <-> w' = w /\ allAt complexUserOk users) /\
  (validateComplexArticles nusers articles w = Ok tt w'
   <-> w' = w /\ allAt (articleOk nusers) articles /\
       nondecreasing Article_UserId articles) /\
  (validateComplexComments nusers narticlesPerUser comments w = Ok tt w'
   <-> w' = w /\ allAt (commentOk nusers narticlesPerUser) comments /\
       nondecreasing Comment_ArticleId comments).
Proof.
  split; [|split]; (split; [| intros H]).
  - apply validateComplexUsers_Ok.
  - destruct H as [-> H]. now apply validateComplexUsers_accepts.
  - apply validateComplexArticles_Ok.
  - destruct H as (-> & H & Hn). now apply validateComplexArticles_accepts.
  - apply validateComplexComments_Ok.
  - destruct H as (-> & H & Hn). now apply validateComplexComments_accepts.
Qed.

End AcceptComplex.


(* ================================================================== *)
(** * The generated data against the validators                        *)
(* ================================================================== *)

Lemma map_zseq_cons {A} (f : Z -> A) n :
  0 < n -> exists rest, map f (zseq n) = f 0 :: rest.
Proof.
  intros H. unfold zseq.
  destruct (Z.to_nat n) as [|m] eqn:E; [lia|].
  cbn [seq map]. eexists. reflexivity.
Qed.

Lemma nth_error_map_zseq {A} (f : Z -> A) n i x :
  nth_error (map f (zseq n)) i = Some x ->
  x = f (Z.of_nat i) /\ Z.of_nat i < n.
Proof.
  intros Hx.
  assert (Hi : (i < Z.to_nat n)%nat).
  { assert (Hs : nth_error (map f (zseq n)) i <> None) by congruence.
    apply nth_error_Some in Hs. unfold zseq in Hs.
    now rewrite !length_map, length_seq in Hs. }
  rewrite nth_error_map, (@nth_error_zseq n i Hi) in Hx.
  cbn [option_map] in Hx. injection Hx as <-. split; [reflexivity | lia].
Qed.

Section Generated.

Context {St : Type}.

(** [benchSimple]: the 1,000,000 generated users have the length the
    scenario compares against and pass its validating loop; a backend
    that returns what was inserted, in the order of the ids, cannot make
    the scenario fail. *)
Theorem simple_generated_accepted (w : World St) :
  len (minuteUsers simple_nusers) = simple_nusers /\
  validateSimple (minuteUsers simple_nusers) w = Ok tt w.
Proof.
  split.
  { transitivity (Z.max 0 simple_nusers);
      [apply len_minuteUsers | reflexivity]. }
  apply validateSimple_accepts.
  apply minuteUsers_valid; [discriminate|].
  intros i Hi. now apply Year_minutes.
Qed.


(** [benchLarge]: with [nsize > 0] the validating loop accepts the
    generated users; with [nsize = 0] the e-mails are empty and the loop
    panics on [u.Email[0:1]] of the first user. *)
Theorem large_generated_accepted (nsize : Z) (w : World St) :
  0 <= nsize ->
  len (largeUsers large_nusers nsize) = large_nusers /\
  validateLarge (largeUsers large_nusers nsize) w
  = if 0 <? nsize then Ok tt w else Fatal "slice bounds out of range" w.
Proof.
  intros Hn. split.
  { transitivity (Z.max 0 large_nusers);
      [apply len_largeUsers | reflexivity]. }
  destruct (Z.ltb_spec 0 nsize) as [L|G].
  - apply validateLarge_accepts.
    apply largeUsers_valid; [discriminate | exact L].
  - rewrite largeUsers_eq.
    destruct (map_zseq_cons (largeUser nsize) large_nusers eq_refl)
      as (rest & ->).
    unfold validateLarge, forRange. cbn [forRangeFrom].
    unfold bind. cbv beta.
    rewrite MustBeEqual_pass by reflexivity.
    rewrite MustBeEqual_pass by (vm_compute; reflexivity).
    cbn [largeUser User_Email]. unfold strings.Repeat.
    replace (Z.to_nat nsize) with 0%nat by lia.
    reflexivity.
Qed.

Lemma secondUser_prefix i : prefix "user" (User_Email (secondUser i)) = true.
Proof.
  cbn [secondUser User_Email String.append prefix].
  repeat (rewrite Ascii.eqb_refl || cbn [prefix]).
  now destruct (fmt.d (i + 1) +++ "@example.com").
Qed.

(** [benchConcurrent]: the 1,000,000 generated users have the length the
    readers compare against and pass their validating loop. *)
Theorem concurrent_generated_accepted (w : World St) :
  len (secondUsers concurrent_nusers) = concurrent_nusers /\
  validateConcurrent (secondUsers concurrent_nusers) w = Ok tt w.
Proof.
  split.
  { transitivity (Z.max 0 concurrent_nusers);
      [apply len_secondUsers | reflexivity]. }
  apply validateConcurrent_accepts.
  rewrite secondUsers_eq. apply allAt_map_zseq. intros i Hi.
  unfold userOk. split; [reflexivity|]. split; [|split].
  - cbn [secondUser User_Created].
    rewrite Year_seconds_2023; [lia|].
    change concurrent_nusers with 1000000 in Hi. lia.
  - apply secondUser_prefix.
  - reflexivity.
Qed.

End Generated.

(** Rows with an empty e-mail. *)
Lemma large_generated_accepted_witness :
  0 <= 0 /\
  validateLarge (largeUsers large_nusers 0) world0
  = Fatal "slice bounds out of range" world0.
Proof.
  split; [lia|].
  apply (large_generated_accepted 0 world0 ltac:(lia)).
Defined.

(** The year of an instant less than 7,912,800 seconds after [base]. *)
Lemma Year_2023_within ns :
  0 <= ns < 7912800 * 1000000000 ->
  time.Year (time.Add base ns) = 2023.
Proof.
  intros H. rewrite Year_after_base by lia.
  apply yearOfDay_2023.
  change time.Second with 1000000000.
  change time.nsPerDay with 86400000000000.
  pose proof (Z.div_le_lower_bound (36000 * 1000000000 + ns)
                86400000000000 0 ltac:(lia) ltac:(lia)).
  pose proof (Z.div_lt_upper_bound (36000 * 1000000000 + ns)
                86400000000000 92 ltac:(lia) ltac:(lia)).
  lia.
Qed.

Lemma ids_at {A} (idf : A -> Z) (l : list A) n :
  map idf l = map (Z.add 1) (zseq n) ->
  forall i x, nth_error l i = Some x -> idf x = Z.of_nat i + 1.
Proof.
  intros H i x Hx.
  apply (map_nth_error idf) in Hx. rewrite H in Hx.
  apply nth_error_map_zseq in Hx. lia.
Qed.

Lemma in_complexArticles nu na x :
  In x (complexArticles nu na) ->
  exists u a, 0 <= u < nu /\ 0 <= a < na /\ x = complexArticle na u a.
Proof.
  unfold complexArticles. rewrite in_flat_map.
  intros (u & Hu & Hx). apply in_map_iff in Hx.
  destruct Hx as (a & <- & Ha).
  apply in_zseq in Hu. apply in_zseq in Ha.
  exists u, a. auto.
Qed.

Lemma in_complexComments nu na nc x :
  In x (complexComments nu na nc) ->
  exists u a c, 0 <= u < nu /\ 0 <= a < na /\ 0 <= c < nc /\
                x = complexComment na nc u a c.
Proof.
  unfold complexComments. rewrite in_flat_map.
  intros (u & Hu & Hx). apply in_flat_map in Hx.
  destruct Hx as (a & Ha & Hx). apply in_map_iff in Hx.
  destruct Hx as (c & <- & Hc).
  apply in_zseq in Hu. apply in_zseq in Ha. apply in_zseq in Hc.
  exists u, a, c. auto.
Qed.

Lemma complexUser_prefix i :
  0 <= i < 9999999 -> prefix "user0" (User_Email (complexUser i)) = true.
Proof. exact (minuteUser_prefix i). Qed.

Lemma quotient_step (q q' r r' n i : Z) :
  q * n + r = i -> q' * n + r' = i + 1 ->
  0 <= r < n -> 0 <= r' < n -> q <= q'.
Proof. intros. nia. Qed.

Section GeneratedComplex.

Context {St : Type}.

(** [benchComplex]: the users, articles and comments the scenario
    generates have the lengths it compares against and pass its three
    validating loops, for all sizes up to 100,000 each (the source has
    200, 100 and 20). *)
Theorem complex_generated_accepted (nusers narticlesPerUser ncommentsPerArticle : Z)
  (w : World St) :
  0 <= nusers <= 100000 ->
  0 <= narticlesPerUser <= 100000 ->
  0 <= ncommentsPerArticle <= 100000 ->
  let g := genComplex nusers narticlesPerUser ncommentsPerArticle in
  len (g_users g) = nusers /\
  len (g_articles g) = nusers * narticlesPerUser /\
  len (g_comments g) = nusers * narticlesPerUser * ncommentsPerArticle /\
  validateComplexUsers (g_users g) w = Ok tt w /\
  validateComplexArticles nusers (g_articles g) w = Ok tt w /\
  validateComplexComments nusers narticlesPerUser (g_comments g) w = Ok tt w.
Proof.
  intros Hu Ha Hc g.
  destruct (len_genComplex nusers narticlesPerUser ncommentsPerArticle)
    as (L1 & L2 & L3); [lia .. |].
  destruct (generated_ids nusers narticlesPerUser ncommentsPerArticle)
    as (_ & I2 & I3); [lia .. |].
  fold g in L1, L2, L3, I2, I3.
  split; [exact L1|]. split; [exact L2|]. split; [exact L3|].
  clear L1 L2 L3.
  assert (Eg : g = mkGen (map complexUser (zseq nusers))
                     (complexArticles nusers narticlesPerUser)
                     (complexComments nusers narticlesPerUser
                                      ncommentsPerArticle)
                     nusers (nusers * narticlesPerUser)
                     (nusers * narticlesPerUser * ncommentsPerArticle))
    by (apply genComplex_eq; lia).
  rewrite Eg in *. cbn [g_users g_articles g_comments] in *.
  clear Eg g.
  assert (Min : time.Minute = 60000000000) by reflexivity.
  assert (Sec : time.Second = 1000000000) by reflexivity.
  assert (Mil : time.Millisecond = 1000000) by reflexivity.
  split; [|split].
  - apply validateComplexUsers_accepts.
    apply allAt_map_zseq. intros i Hi. unfold complexUserOk.
    split; [reflexivity|]. split; [|split].
    + cbn [complexUser User_Created]. apply Year_minutes_2023. lia.
    + apply complexUser_prefix. lia.
    + reflexivity.
  - apply validateComplexArticles_accepts.
    + intros i x Hx. pose proof (ids_at _ _ _ I2 i x Hx) as Hid.
      apply nth_error_In, in_complexArticles in Hx.
      destruct Hx as (u & a & Hu' & Ha' & ->).
      unfold articleOk. split; [exact Hid|].
      cbn [complexArticle Article_Created Article_UserId Article_Text].
      split; [|split; [lia | reflexivity]].
      rewrite !scale_small by (rewrite ?Min, ?Sec; lia).
      unfold time.Add at 1. rewrite <- Z.add_assoc.
      apply Year_2023_within. rewrite Min, Sec. lia.
    + intros i x y Hx Hy.
      pose proof (ids_at _ _ _ I2 i x Hx) as Hix.
      pose proof (ids_at _ _ _ I2 (S i) y Hy) as Hiy.
      apply nth_error_In, in_complexArticles in Hx.
      apply nth_error_In, in_complexArticles in Hy.
      destruct Hx as (u & a & Hu1 & Ha1 & ->).
      destruct Hy as (u' & a' & Hu2 & Ha2 & ->).
      cbn [complexArticle Article_Id Article_UserId] in *.
      assert (u <= u'); [|lia].
      apply (quotient_step u u' a a' narticlesPerUser (Z.of_nat i)); lia.
  - apply validateComplexComments_accepts.
    + intros i x Hx. pose proof (ids_at _ _ _ I3 i x Hx) as Hid.
      apply nth_error_In, in_complexComments in Hx.
      destruct Hx as (u & a & c & Hu' & Ha' & Hc' & ->).
      unfold commentOk. split; [exact Hid|].
      cbn [complexComment Comment_Created Comment_ArticleId Comment_Text].
      split; [|split; [nia | reflexivity]].
      rewrite !scale_small by (rewrite ?Min, ?Sec, ?Mil; lia).
      unfold time.Add at 1 2. rewrite <- !Z.add_assoc.
      apply Year_2023_within. rewrite Min, Sec, Mil. lia.
    + intros i x y Hx Hy.
      pose proof (ids_at _ _ _ I3 i x Hx) as Hix.
      pose proof (ids_at _ _ _ I3 (S i) y Hy) as Hiy.
      apply nth_error_In, in_complexComments in Hx.
      apply nth_error_In, in_complexComments in Hy.
      destruct Hx as (u & a & c & Hu1 & Ha1 & Hc1 & ->).
      destruct Hy as (u' & a' & c' & Hu2 & Ha2 & Hc2 & ->).
      cbn [complexComment Comment_Id Comment_ArticleId] in *.
      assert (u * narticlesPerUser + a <= u' * narticlesPerUser + a');
        [|lia].
      apply (quotient_step _ _ c c' ncommentsPerArticle (Z.of_nat i)); lia.
Qed.

End GeneratedComplex.

(** The sizes of the source: 200 users, 100 articles each, 20 comments
    each. *)
Lemma complex_generated_accepted_witness :
  (0 <= complex_nusers <= 100000 /\
   0 <= complex_narticlesPerUser <= 100000 /\
   0 <= complex_ncommentsPerArticle <= 100000) /\
  validateComplexComments complex_nusers complex_narticlesPerUser
    (g_comments (genComplex complex_nusers complex_narticlesPerUser
                            complex_ncommentsPerArticle)) world0
  = Ok tt world0.
Proof.
  assert (H1 : 0 <= complex_nusers <= 100000)
    by (vm_compute; intuition discriminate).
  assert (H2 : 0 <= complex_narticlesPerUser <= 100000)
    by (vm_compute; intuition discriminate).
  assert (H3 : 0 <= complex_ncommentsPerArticle <= 100000)
    by (vm_compute; intuition discriminate).
  split; [auto|].
  apply (complex_generated_accepted _ _ _ world0 H1 H2 H3).
Defined.


(* ================================================================== *)
(** * The thousand queries of [benchMany]                              *)
(* ================================================================== *)





(* ================================================================== *)
(** * The wait group: [wg.Wait()] returns                              *)
(* ================================================================== *)

Section Progress.

Context {conn St : Type} {DB : Db conn St}.
Variables (nusers ngoroutines : Z) (dbfile : string) (g0 : nat).
















End Progress.

Section NoDeadlock.

Context {conn St : Type} {DB : Db conn St}.


End NoDeadlock.


(* ================================================================== *)
(** * One connection per goroutine                                     *)
(* ================================================================== *)

Lemma session_intro dbfile work :
  Forall (fun e => isOpen e = false /\ isClose e = false) work ->
  session dbfile (EvOpen dbfile :: work ++ [EvClose]).
Proof. intros H. exists work. now split. Qed.

Lemma Forall_map_intro' {A B} (P : B -> Prop) (f : A -> B) l :
  (forall x, P (f x)) -> Forall P (map f l).
Proof. intros H. induction l; cbn [map]; constructor; auto. Qed.

Section Sessions.

Context {conn St : Type} {DB : Db conn St}.
Variable tick : nat -> Z.

Ltac work_ok :=
  repeat first
    [ apply Forall_nil
    | apply Forall_cons; [split; reflexivity|]
    | apply Forall_app; split
    | apply Forall_map_intro'; intros ?; split; reflexivity ].

(** In every scenario that returns, each goroutine has used exactly one
    connection: the main goroutine removes the database files, then
    opens its connection, works on it and closes it last; every other
    goroutine that did anything (a reader of the concurrent scenario) has
    opened one connection first and closed it last. No connection is
    left open, and none is opened twice. ([benchLarge] is taken with
    [nsize >= 0].) *)
Theorem one_session_per_goroutine
  (sc : Scenario) (dbfile : string) (verbose : bool) (w w' : World St) :
  validSize sc ->
  bench tick sc dbfile verbose w = Ok tt w' ->
  exists added,
    w_trace w' = w_trace w ++ added /\
    (exists s, proj (w_cur w) added = EvRemove dbfile :: s /\
               session dbfile s) /\
    forall g, g <> w_cur w ->
      proj g added = [] \/ session dbfile (proj g added).
Proof.
  intros _ H.
  destruct sc as [| |nusers|nsize|ngoroutines sched]; cbn [bench] in H.
  - apply benchSimpleWith_Ok in H. destruct H as (res & size & Ht & _).
    eexists. split; [exact Ht|]. split.
    + rewrite proj_tagged_same. eexists. split; [reflexivity|].
      apply (session_intro dbfile
               [EvExec schemaSql;
                EvInsertUsers insertUserSql (minuteUsers simple_nusers);
                EvFindUsers findUsersSql res]).
      work_ok.
    + intros g Hg. left. apply proj_tagged_other. congruence.
  - apply benchComplexWith_Ok in H.
    destruct H as (us & ars & cs & size & Ht & _).
    eexists. split; [exact Ht|]. split.
    + rewrite proj_tagged_same. eexists. split; [reflexivity|].
      match goal with
      | |- session _ (_ :: ?a :: ?b :: ?c :: ?d :: ?e :: _) =>
          apply (session_intro dbfile [a; b; c; d; e])
      end.
      work_ok.
    + intros g Hg. left. apply proj_tagged_other. congruence.
  - apply benchMany_Ok in H.
    destruct H as (ress & size & _ & _ & Ht & _).
    eexists. split; [exact Ht|]. split.
    + rewrite proj_tagged_same. eexists. split; [reflexivity|].
      apply (session_intro dbfile
               ([EvExec schemaSql;
                 EvInsertUsers insertUserSql (minuteUsers nusers)]
                ++ map (EvFindUsers findUsersSql) ress)).
      work_ok.
    + intros g Hg. left. apply proj_tagged_other. congruence.
  - apply benchLargeWith_Ok in H. destruct H as (res & size & Ht & _).
    eexists. split; [exact Ht|]. split.
    + rewrite proj_tagged_same. eexists. split; [reflexivity|].
      apply (session_intro dbfile
               [EvExec schemaSql;
                EvInsertUsers insertUserSql (largeUsers large_nusers nsize);
                EvFindUsers findUsersSql res]).
      work_ok.
    + intros g Hg. left. apply proj_tagged_other. congruence.
  - apply benchConcurrentWith_Ok in H.
    destruct H as (evs & size & Ht & Hb & Hr & _).
    eexists. split; [exact Ht|]. split.
    + rewrite proj_app, proj_tagged_same, (@proj_none (w_cur w) evs).
      * rewrite app_nil_r. eexists. split; [reflexivity|].
        apply (session_intro dbfile
                 [EvExec schemaSql;
                  EvInsertUsers insertUserSql
                    (secondUsers concurrent_nusers)]).
        work_ok.
      * eapply Forall_impl; [|exact Hb]. cbn beta. intros e He. lia.
    + intros g Hg.
      rewrite proj_app, proj_tagged_other by congruence.
      cbn [app].
      destruct (le_lt_dec g (w_cur w)) as [L|G].
      { left. apply proj_none.
        eapply Forall_impl; [|exact Hb]. cbn beta. intros e He. lia. }
      destruct (le_lt_dec g (w_cur w + Z.to_nat ngoroutines)) as [L|G'].
      * right.
        destruct (Hr (g - w_cur w - 1)%nat) as (r & v1 & v2 & Ep & _);
          [lia|].
        replace (w_cur w + S (g - w_cur w - 1))%nat with g in Ep by lia.
        rewrite Ep.
        apply (session_intro dbfile
                 [EvExec pragmaSql; EvFindUsers findUsersSql r;
                  EvWriteUsers r; EvLenUsers v1; EvRangeUsers v2]).
        work_ok.
      * left. apply proj_none.
        eapply Forall_impl; [|exact Hb]. cbn beta. intros e He. lia.
Qed.

End Sessions.

Lemma one_session_per_goroutine_witness :
  bench tick0 (ScMany 3) "db" false world0
  = Ok tt (final (bench tick0 (ScMany 3) "db" false world0)) /\
  exists added,
    w_trace (final (bench tick0 (ScMany 3) "db" false world0))
    = w_trace world0 ++ added /\
    (exists s, proj (w_cur world0) added = EvRemove "db" :: s /\
               session "db" s) /\
    forall g, g <> w_cur world0 ->
      proj g added = [] \/ session "db" (proj g added).
Proof.
  assert (H : bench tick0 (ScMany 3) "db" false world0
              = Ok tt (final (bench tick0 (ScMany 3) "db" false world0)))
    by (apply Ok_final; vm_compute; reflexivity).
  split; [exact H|].
  apply (one_session_per_goroutine tick0 (ScMany 3) "db" false world0 _ I H).
Defined.


(* ================================================================== *)
(** * The generated timestamps and the [ORDER BY] of the complex query *)
(* ================================================================== *)

Lemma lex2 (q r q' r' n : Z) :
  0 <= r < n -> 0 <= r' < n ->
  (q * n + r < q' * n + r' <-> q < q' \/ (q = q' /\ r < r')).
Proof.
  intros Hr Hr'. destruct (Z.lt_trichotomy q q') as [L|[E|G]].
  - split; [auto|]. intros _. nia.
  - subst q'. split; [intros H; right; split; [reflexivity | lia]|].
    intros [H|[_ H]]; lia.
  - split; [intros H; exfalso; nia|]. intros [H|[H _]]; lia.
Qed.

Lemma lex2_eq (q r q' r' n : Z) :
  0 <= r < n -> 0 <= r' < n ->
  q * n + r = q' * n + r' -> q = q' /\ r = r'.
Proof.
  intros Hr Hr' E. destruct (Z.lt_trichotomy q q') as [L|[->|G]];
    [exfalso; nia | lia | exfalso; nia].
Qed.

Lemma joined_generated nu na nc u a c :
  0 <= nu -> 0 <= na -> 0 <= nc ->
  joined (genComplex nu na nc) u a c ->
  exists iu ia ic,
    0 <= iu < nu /\ 0 <= ia < na /\ 0 <= ic < nc /\
    u = complexUser iu /\ a = complexArticle na iu ia /\
    c = complexComment na nc iu ia ic.
Proof.
  intros Hu Ha Hc. unfold joined. rewrite genComplex_eq by assumption.
  cbn [g_users g_articles g_comments].
  intros (Iu & Ia & Ic & Eu & Ea).
  apply in_map_iff in Iu. destruct Iu as (iu & <- & Iu). apply in_zseq in Iu.
  apply in_complexArticles in Ia.
  destruct Ia as (ua & ia & Hua & Hia & ->).
  apply in_complexComments in Ic.
  destruct Ic as (uc & ac & ic & Huc & Hac & Hic & ->).
  cbn [complexUser complexArticle complexComment User_Id Article_Id
       Article_UserId Comment_ArticleId] in Eu, Ea.
  assert (ua = iu) by lia. subst ua.
  destruct (lex2_eq uc ac iu ia na Hac Hia ltac:(lia)) as [-> ->].
  exists iu, ia, ic. repeat split; assumption || lia.
Qed.

(** The join of the complex query over the generated rows, ordered by
    [users.created, articles.created, comments.created], is in the order
    of the comment ids: of two rows of the join the one with the smaller
    comment id comes first in the [ORDER BY], and conversely. The
    articles of one user overlap in time with those of the next (an
    article is a second after the previous one, a user a minute after the
    previous one, and a user has up to 100 articles), so the first key,
    the user's [created], is needed for this. For all sizes up to
    100,000 each. *)
Theorem complex_order_is_id_order
  (nusers narticlesPerUser ncommentsPerArticle : Z)
  (u u' : User) (a a' : Article) (c c' : Comment) :
  0 <= nusers <= 100000 ->
  0 <= narticlesPerUser <= 100000 ->
  0 <= ncommentsPerArticle <= 100000 ->
  let g := genComplex nusers narticlesPerUser ncommentsPerArticle in
  joined g u a c -> joined g u' a' c' ->
  (Comment_Id c < Comment_Id c' <-> lexLt (orderKey u a c) (orderKey u' a' c')).
Proof.
  intros Hnu Hna Hnc g J J'. subst g.
  apply joined_generated in J; [|lia ..].
  apply joined_generated in J'; [|lia ..].
  destruct J as (iu & ia & ic & Hu & Ha & Hc & -> & -> & ->).
  destruct J' as (iu' & ia' & ic' & Hu' & Ha' & Hc' & -> & -> & ->).
  assert (Min : time.Minute = 60000000000) by reflexivity.
  assert (Sec : time.Second = 1000000000) by reflexivity.
  assert (Mil : time.Millisecond = 1000000) by reflexivity.
  unfold lexLt, orderKey.
  cbn [fst snd complexUser complexArticle complexComment User_Created
       Article_Created Comment_Created Comment_Id].
  rewrite !scale_small by (rewrite ?Min, ?Sec, ?Mil; lia).
  unfold time.Add. rewrite Min, Sec, Mil.
  pose proof (lex2 (iu * narticlesPerUser + ia) ic
                   (iu' * narticlesPerUser + ia') ic' ncommentsPerArticle
                   Hc Hc') as L1.
  pose proof (lex2 iu ia iu' ia' narticlesPerUser Ha Ha') as L2.
  assert (L3 : iu * narticlesPerUser + ia = iu' * narticlesPerUser + ia'
               <-> iu = iu' /\ ia = ia').
  { split; [now apply lex2_eq | intros [-> ->]; reflexivity]. }
  split.
  - intros H.
    assert (H1 : (iu * narticlesPerUser + ia) * ncommentsPerArticle + ic
                 < (iu' * narticlesPerUser + ia') * ncommentsPerArticle + ic')
      by lia.
    apply L1 in H1. destruct H1 as [H1|[H1 H2]].
    + apply L2 in H1. lia.
    + apply L3 in H1. lia.
  - intros H.
    assert (H1 : (iu * narticlesPerUser + ia) * ncommentsPerArticle + ic
                 < (iu' * narticlesPerUser + ia') * ncommentsPerArticle + ic');
      [|lia].
    apply L1.
    destruct (Z.lt_trichotomy iu iu') as [Lu|[Eu|Gu]]; [| |lia].
    + left. apply L2. now left.
    + subst iu'.
      destruct (Z.lt_trichotomy ia ia') as [La|[Ea|Ga]]; [| |lia].
      * left. apply L2. right. now split.
      * subst ia'. right. split; [reflexivity | lia].
Qed.

(** Two users with 62 articles of one comment each: the last article of
    the first user is created after the first article of the second
    user, and its row still comes first. *)
Lemma complex_order_is_id_order_witness :
  (0 <= 2 <= 100000 /\ 0 <= 62 <= 100000 /\ 0 <= 1 <= 100000) /\
  joined (genComplex 2 62 1) (complexUser 0) (complexArticle 62 0 61)
         (complexComment 62 1 0 61 0) /\
  joined (genComplex 2 62 1) (complexUser 1) (complexArticle 62 1 0)
         (complexComment 62 1 1 0 0) /\
  Article_Created (complexArticle 62 1 0)
  < Article_Created (complexArticle 62 0 61) /\
  (Comment_Id (complexComment 62 1 0 61 0)
   < Comment_Id (complexComment 62 1 1 0 0)
   <-> lexLt (orderKey (complexUser 0) (complexArticle 62 0 61)
                       (complexComment 62 1 0 61 0))
             (orderKey (complexUser 1) (complexArticle 62 1 0)
                       (complexComment 62 1 1 0 0))).
Proof.
  assert (J1 : joined (genComplex 2 62 1) (complexUser 0)
                 (complexArticle 62 0 61) (complexComment 62 1 0 61 0)).
  { unfold joined. split; [|split; [|split; [|split]]];
      [ vm_compute; repeat (first [left; reflexivity | right]) ..
      | vm_compute; reflexivity | vm_compute; reflexivity ]. }
  assert (J2 : joined (genComplex 2 62 1) (complexUser 1)
                 (complexArticle 62 1 0) (complexComment 62 1 1 0 0)).
  { unfold joined. split; [|split; [|split; [|split]]];
      [ vm_compute; repeat (first [left; reflexivity | right]) ..
      | vm_compute; reflexivity | vm_compute; reflexivity ]. }
  split; [split; [lia | split; lia]|]. split; [exact J1|]. split; [exact J2|].
  split; [vm_compute; reflexivity|].
  apply (complex_order_is_id_order 2 62 1 _ _ _ _ _ _
           ltac:(lia) ltac:(lia) ltac:(lia) J1 J2).
Defined.


(* ================================================================== *)
(** * [verbose] changes the log only                                   *)
(* ================================================================== *)

Ltac same_but_log :=
  unfold sameButLog in *;
  cbn [w_store w_cur w_clock w_prefix w_out w_trace
       set_store set_cur set_prefix add_line add_event tick_clock] in *;
  intuition congruence.

Section Sim.

Context {conn St : Type} {DB : Db conn St}.
Variable tick : nat -> Z.

Lemma sameButLog_refl (w : World St) : sameButLog w w.
Proof. same_but_log. Qed.

Lemma sim_ret {A} (a : A) : sim (ret (St:=St) a) (ret a).
Proof. intros w1 w2 H. unfold ret. split; [reflexivity | exact H]. Qed.

Lemma sim_bind {A B} (m1 m2 : M St A) (k1 k2 : A -> M St B) :
  sim m1 m2 -> (forall a, sim (k1 a) (k2 a)) -> sim (bind m1 k1) (bind m2 k2).
Proof.
  intros Hm Hk w1 w2 H. unfold bind. specialize (Hm w1 w2 H).
  destruct (m1 w1) as [a w1'|x w1'], (m2 w2) as [b w2'|y w2'];
    try contradiction.
  - destruct Hm as [<- Hw]. apply Hk. exact Hw.
  - exact Hm.
Qed.

Lemma sim_logPrint msg : sim (logPrint (St:=St) msg) (logPrint msg).
Proof. intros w1 w2 H. unfold logPrint. split; [reflexivity|]. same_but_log. Qed.

Lemma sim_logFatal {A} msg :
  sim (logFatal (St:=St) (A:=A) msg) (logFatal msg).
Proof. intros w1 w2 H. unfold logFatal. split; [reflexivity|]. same_but_log. Qed.

Lemma sim_panic {A} msg : sim (panic (St:=St) (A:=A) msg) (panic msg).
Proof. intros w1 w2 H. unfold panic. split; [reflexivity | exact H]. Qed.

Lemma sim_timeNow : sim (timeNow (St:=St) tick) (timeNow tick).
Proof.
  intros w1 w2 H. unfold timeNow. split; [|same_but_log].
  destruct H as (_ & _ & -> & _). reflexivity.
Qed.

Lemma sim_call {A} (op : St -> Res (A * St)) ev : sim (call op ev) (call op ev).
Proof.
  intros w1 w2 H. unfold call.
  assert (Es : w_store w1 = w_store w2) by apply H. rewrite Es.
  destruct (op (w_store w2)) as [[a s]|msg];
    (split; [reflexivity | same_but_log]).
Qed.

Lemma sim_removeDbfiles dbfile :
  sim (removeDbfiles (St:=St) dbfile) (removeDbfiles dbfile).
Proof.
  intros w1 w2 H. unfold removeDbfiles. split; [reflexivity | same_but_log].
Qed.

Lemma sim_dbsize dbfile : sim (dbsize (St:=St) dbfile) (dbsize dbfile).
Proof.
  intros w1 w2 H. unfold dbsize. split; [|exact H].
  destruct H as (-> & _). reflexivity.
Qed.

Lemma sim_MustBeEqual {A} `{Eqb A} (x y : A) :
  sim (MustBeEqual (St:=St) x y) (MustBeEqual x y).
Proof.
  unfold MustBeEqual. destruct (eqb x y); [apply sim_ret | apply sim_logFatal].
Qed.

Lemma sim_MustBe c : sim (MustBe (St:=St) c) (MustBe c).
Proof. unfold MustBe. destruct c; [apply sim_ret | apply sim_logFatal]. Qed.

Lemma sim_Must c msg : sim (Must (St:=St) c msg) (Must c msg).
Proof. unfold Must. destruct c; [apply sim_ret | apply sim_logFatal]. Qed.

Lemma sim_sliceM s lo hi : sim (sliceM (St:=St) s lo hi) (sliceM s lo hi).
Proof.
  unfold sliceM. destruct (strings.slice s lo hi);
    [apply sim_ret | apply sim_panic].
Qed.

Lemma sim_indexM {A} (xs : list A) i : sim (indexM (St:=St) xs i) (indexM xs i).
Proof.
  unfold indexM.
  destruct (if i <? 0 then None else nth_error xs (Z.to_nat i));
    [apply sim_ret | apply sim_panic].
Qed.

Lemma sim_if {A} (b : bool) (m1 m2 n1 n2 : M St A) :
  sim m1 n1 -> sim m2 n2 ->
  sim (if b then m1 else m2) (if b then n1 else n2).
Proof. now destruct b. Qed.

Lemma sim_forRangeFrom {A} (body : Z -> A -> M St unit) :
  (forall i x, sim (body i x) (body i x)) ->
  forall l i, sim (forRangeFrom i l body) (forRangeFrom i l body).
Proof.
  intros Hb. induction l as [|x l IH]; intros i; cbn [forRangeFrom].
  - apply sim_ret.
  - apply sim_bind; [apply Hb | intros _; apply IH].
Qed.

Lemma sim_forRange {A} (body : Z -> A -> M St unit) l :
  (forall i x, sim (body i x) (body i x)) ->
  sim (forRange l body) (forRange l body).
Proof. intros Hb. unfold forRange. now apply sim_forRangeFrom. Qed.

Lemma sim_forFromM {S} (body : Z -> S -> M St S) :
  (forall i s, sim (body i s) (body i s)) ->
  forall n i s, sim (forFromM n i body s) (forFromM n i body s).
Proof.
  intros Hb. induction n as [|n IH]; intros i s; cbn [forFromM].
  - apply sim_ret.
  - apply sim_bind; [apply Hb | intros s'; apply IH].
Qed.

Lemma sim_forUpToM {S} (body : Z -> S -> M St S) hi s :
  (forall i s, sim (body i s) (body i s)) ->
  sim (forUpToM hi body s) (forUpToM hi body s).
Proof. intros Hb. unfold forUpToM. now apply sim_forFromM. Qed.

(** What is run under [if verbose] only logs. *)
Lemma sim_logPrint_ret msg : sim (logPrint (St:=St) msg) (ret tt).
Proof.
  intros w1 w2 H. unfold logPrint, ret. split; [reflexivity|]. same_but_log.
Qed.

Lemma sim_seq_ret (m1 m2 : M St unit) :
  sim m1 (ret tt) -> sim m2 (ret tt) -> sim (bind m1 (fun _ => m2)) (ret tt).
Proof.
  intros H1 H2.
  change (ret (St:=St) tt) with (bind (ret (St:=St) tt) (fun _ => ret tt)).
  apply sim_bind; [exact H1 | intros _; exact H2].
Qed.

Lemma sim_when_verbose (m : M St unit) :
  sim m (ret tt) -> sim (when true m) (when false m).
Proof. intros H. exact H. Qed.

End Sim.

Ltac sim_auto :=
  repeat first
    [ apply sim_ret | apply sim_logPrint | apply sim_logFatal
    | apply sim_panic | apply sim_timeNow | apply sim_call
    | apply sim_removeDbfiles | apply sim_dbsize | apply sim_MustBeEqual
    | apply sim_MustBe | apply sim_Must | apply sim_sliceM
    | apply sim_indexM
    | apply sim_when_verbose;
        repeat first [apply sim_logPrint_ret | apply sim_seq_ret]
    | apply sim_if
    | apply sim_forRange; intros ? ?
    | apply sim_forUpToM; intros ? ?
    | apply sim_bind; [| intros ?]
    | progress unfold millisSince, makeDb, Exec, InsertUsers, InsertArticles,
        InsertComments, FindUsers, FindUsersArticlesComments, Close,
        initSchema, validateSimple, validateMany, validateLarge,
        validateConcurrent, validateComplexUsers, validateComplexArticles,
        validateComplexComments ].

Section Verbose.

Context {conn St : Type} {DB : Db conn St}.
Variable tick : nat -> Z.

Lemma sim_final {A} (m1 m2 : M St A) (w : World St) :
  sim m1 m2 ->
  status (m1 w) = status (m2 w) /\ sameButLog (final (m1 w)) (final (m2 w)).
Proof.
  intros H. specialize (H w w (sameButLog_refl w)).
  destruct (m1 w), (m2 w); try contradiction; cbn [status final];
    destruct H as [<- H]; now split.
Qed.

(** Two runs that start with the same computation in the same world. *)
Lemma same_start {A B} (m : M St A) (k1 k2 : A -> M St B) (w : World St) :
  (forall a w1,
     status (k1 a w1) = status (k2 a w1) /\
     sameButLog (final (k1 a w1)) (final (k2 a w1))) ->
  status (bind m k1 w) = status (bind m k2 w) /\
  sameButLog (final (bind m k1 w)) (final (bind m k2 w)).
Proof.
  intros H. unfold bind. destruct (m w) as [a w1|msg w1]; [apply H|].
  split; [reflexivity | apply sameButLog_refl].
Qed.

(** [verbose] changes the log and nothing else: with it on or off, a
    scenario makes the same calls on the backend, with the same
    arguments and in the same order, takes the same readings of the
    clock, leaves the storage in the same state, and ends in the same
    way: it returns in both runs, or it is stopped in both with the same
    message. ([benchLarge] is taken with [nsize >= 0].) *)
Theorem verbose_only_logs
  (sc : Scenario) (dbfile : string) (w : World St) :
  validSize sc ->
  status (bench tick sc dbfile true w) = status (bench tick sc dbfile false w) /\
  sameButLog (final (bench tick sc dbfile true w))
             (final (bench tick sc dbfile false w)).
Proof.
  intros _.
  destruct sc as [| |nusers|nsize|ngoroutines sched]; cbn [bench].
  - apply sim_final. unfold benchSimple, benchSimpleWith. cbv zeta. sim_auto.
  - apply sim_final. unfold benchComplex, benchComplexWith. cbv zeta.
    sim_auto.
  - apply sim_final. unfold benchMany. cbv zeta. sim_auto.
  - apply sim_final. unfold benchLarge, benchLargeWith. cbv zeta. sim_auto.
  - unfold benchConcurrent, benchConcurrentWith.
    apply same_start. intros users w1.
    apply same_start. intros t0 w2.
    apply same_start. intros [] w3.
    apply sim_final. cbv zeta. sim_auto.
Qed.

End Verbose.

(** [benchLarge] with rows of 5 bytes on the reference backend. *)
Lemma verbose_only_logs_witness :
  validSize (ScLarge 5) /\
  status (bench tick0 (ScLarge 5) "db" true world0)
  = status (bench tick0 (ScLarge 5) "db" false world0) /\
  sameButLog (final (bench tick0 (ScLarge 5) "db" true world0))
             (final (bench tick0 (ScLarge 5) "db" false world0)).
Proof.
  assert (H : validSize (ScLarge 5)) by (cbn [validSize]; lia).
  split; [exact H|].
  apply (verbose_only_logs tick0 (ScLarge 5) "db" world0 H).
Defined.


(* ================================================================== *)
(** * What the readers check                                           *)
(* ================================================================== *)



Section SharedUsers.

Context {conn St : Type} {DB : Db conn St}.
Variables (nusers ngoroutines : Z) (dbfile : string) (g0 : nat).



Variable T0 : list (nat * Event).




End SharedUsers.

Section Checked.

Context {conn St : Type} {DB : Db conn St}.


End Checked.


(* ================================================================== *)
(** * A fresh database and its schema come first                       *)
(* ================================================================== *)

Section FreshStart.

Context {conn St : Type} {DB : Db conn St}.
Variable tick : nat -> Z.

(** The head of every scenario: [removeDbfiles], [makeDb], [initSchema],
    and then the rest. *)
Lemma start_events {A} (dbfile : string) (rest : conn -> M St A) :
  (forall db, tracks (rest db)) ->
  forall w, exists evs,
    w_trace (final ((removeDbfiles dbfile ;;
                     db <- makeDb dbfile ;;
                     initSchema db ;;
                     rest db) w))
    = w_trace w ++ tagged (w_cur w) evs /\
    w_cur (final ((removeDbfiles dbfile ;;
                   db <- makeDb dbfile ;;
                   initSchema db ;;
                   rest db) w)) = w_cur w /\
    firstn 3 evs
    = firstn (List.length evs)
             [EvRemove dbfile; EvOpen dbfile; EvExec schemaSql].
Proof.
  intros Hrest w.
  rewrite !final_bind. unfold removeDbfiles. cbv beta iota.
  rewrite !final_bind. unfold makeDb, call. world_simpl.
  destruct (db_open dbfile (fs_remove dbfile (w_store w))) as [[db s]|msg].
  - rewrite !final_bind. unfold initSchema, Exec, call, only. world_simpl.
    destruct (db_Exec db schemaSql s) as [s'|msg].
    + match goal with
      | |- context [rest db ?w3] =>
          destruct (Hrest db w3) as (evs & Et & Ec)
      end.
      world_simpl.
      exists ([EvRemove dbfile; EvOpen dbfile; EvExec schemaSql] ++ evs).
      split; [|split].
      * rewrite Et. unfold tagged. rewrite map_app. cbn [map].
        rewrite <- ?app_assoc. reflexivity.
      * exact Ec.
      * rewrite length_app. cbn [List.length app firstn Nat.add].
        now rewrite firstn_nil.
    + exists [EvRemove dbfile; EvOpen dbfile].
      cbn [tagged map List.length firstn]. world_simpl.
      rewrite <- ?app_assoc. repeat split.
  - exists [EvRemove dbfile].
    cbn [tagged map List.length firstn]. world_simpl.
    repeat split.
Qed.

(** What follows the seed phase in the concurrent scenario adds no event
    of the main goroutine. *)
Lemma after_seed_events nusers ngoroutines dbfile verbose sched users
  (w : World St) :
  exists evs,
    w_trace (final ((t0 <- timeNow tick ;;
                     fanOut nusers ngoroutines dbfile sched users ;;
                     queryMillis <- millisSince tick t0 ;;
                     when verbose
                       (logPrint ("  query took " +++ fmt.d queryMillis
                                  +++ " ms")) ;;
                     logPrint (header3 ("concurrent/N=" +++ fmt.d ngoroutines)
                                       "query" "dbsize") ;;
                     size <- dbsize dbfile ;;
                     logPrint (data3 ("concurrent/N=" +++ fmt.d ngoroutines)
                                     queryMillis size)) w))
    = w_trace w ++ evs /\
    Forall (fun e => (w_cur w < fst e)%nat) evs.
Proof.
  rewrite final_bind. unfold timeNow at 1. cbv beta iota.
  rewrite final_bind.
  destruct (fanOut_trace nusers ngoroutines dbfile sched users (tick_clock w))
    as (evs & Et & Hb).
  exists evs. split; [|exact Hb].
  destruct (fanOut nusers ngoroutines dbfile sched users (tick_clock w))
    as [[] w2|msg w2]; cbn [final] in Et; [|exact Et].
  destruct verbose;
    cbv [bind millisSince timeNow ret when logPrint dbsize final];
    world_simpl; exact Et.
Qed.

(** However a scenario ends, the main goroutine begins with removing the
    database files, then opens its connection, then creates the schema,
    as far as it gets: nothing is inserted or queried before the schema
    has been created on a database whose files have been removed.
    ([benchLarge] is taken with [nsize >= 0].) *)
Theorem fresh_schema_first
  (sc : Scenario) (dbfile : string) (verbose : bool) (w : World St) :
  validSize sc ->
  exists added,
    w_trace (final (bench tick sc dbfile verbose w)) = w_trace w ++ added /\
    firstn 3 (proj (w_cur w) added)
    = firstn (List.length (proj (w_cur w) added))
             [EvRemove dbfile; EvOpen dbfile; EvExec schemaSql].
Proof.
  intros _.
  assert (Seq : forall m : M St unit,
    (exists evs,
       w_trace (final (m w)) = w_trace w ++ tagged (w_cur w) evs /\
       w_cur (final (m w)) = w_cur w /\
       firstn 3 evs
       = firstn (List.length evs)
                [EvRemove dbfile; EvOpen dbfile; EvExec schemaSql]) ->
    exists added,
      w_trace (final (m w)) = w_trace w ++ added /\
      firstn 3 (proj (w_cur w) added)
      = firstn (List.length (proj (w_cur w) added))
               [EvRemove dbfile; EvOpen dbfile; EvExec schemaSql]).
  { intros m (evs & Et & _ & Hf). exists (tagged (w_cur w) evs).
    split; [exact Et|]. now rewrite proj_tagged_same. }
  destruct sc as [| |nusers|nsize|ngoroutines sched]; cbn [bench].
  - apply Seq. unfold benchSimple, benchSimpleWith. cbv zeta.
    apply start_events. intros db. tracks_auto.
  - apply Seq. unfold benchComplex, benchComplexWith. cbv zeta.
    apply start_events. intros db. tracks_auto.
  - apply Seq. unfold benchMany. cbv zeta.
    apply start_events. intros db. tracks_auto.
  - apply Seq. unfold benchLarge, benchLargeWith. cbv zeta.
    apply start_events. intros db. tracks_auto.
  - unfold benchConcurrent, benchConcurrentWith. rewrite final_bind.
    assert (Hs : exists evs,
      w_trace (final (seedPhase concurrent_nusers dbfile w))
      = w_trace w ++ tagged (w_cur w) evs /\
      w_cur (final (seedPhase concurrent_nusers dbfile w)) = w_cur w /\
      firstn 3 evs
      = firstn (List.length evs)
               [EvRemove dbfile; EvOpen dbfile; EvExec schemaSql]).
    { unfold seedPhase. cbv zeta. apply start_events. intros db.
      tracks_auto. }
    destruct Hs as (seed & Et & Ec & Hf).
    destruct (seedPhase concurrent_nusers dbfile w) as [users w1|msg w1];
      cbn [final] in Et, Ec.
    + destruct (after_seed_events concurrent_nusers ngoroutines dbfile
                  verbose sched users w1) as (evs & Ea & Hb).
      exists (tagged (w_cur w) seed ++ evs). split.
      * rewrite Ea, Et. now rewrite app_assoc.
      * rewrite proj_app, proj_tagged_same, (@proj_none (w_cur w) evs).
        -- now rewrite app_nil_r.
        -- eapply Forall_impl; [|exact Hb]. cbn beta. intros e He. lia.
    + exists (tagged (w_cur w) seed). split; [exact Et|].
      now rewrite proj_tagged_same.
Qed.

End FreshStart.

(** [benchMany] with three users on the reference backend. *)
Lemma fresh_schema_first_witness :
  validSize (ScMany 3) /\
  exists added,
    w_trace (final (bench tick0 (ScMany 3) "db" false world0))
    = w_trace world0 ++ added /\
    firstn 3 (proj (w_cur world0) added)
    = firstn (List.length (proj (w_cur world0) added))
             [EvRemove "db"; EvOpen "db"; EvExec schemaSql].
Proof.
  split; [exact I|].
  apply (fresh_schema_first tick0 (ScMany 3) "db" false world0 I).
Defined.

